(** * Hackflight: PID stabilizer and arming/safety controller

    A shallow embedding of [src/stabilizer.hpp] (class [hf::Stabilizer]) and
    [src/hackflight.hpp] (class [hf::Hackflight]).

    Numbers.  The C++ type [float] is modelled by exact rational arithmetic
    ([Q]): [+], [-], [*], [/], [fabs] and the comparisons are the rational
    ones, and equality of two computed values is [Qeq] ([==]).  Rounding,
    infinities and NaN are outside this model.

    Arrays.  [float x[3]] indexed by the [AXIS_*] constants is a record of
    three cells read and written through [get3]/[set3]; the two-cell arrays of
    the derivative history are [array2]. *)

From Stdlib Require Import QArith Qabs Lqa Lia Bool List Sorted.
Import ListNotations.

Open Scope Q_scope.

(** ** Comparisons on [float] values as booleans *)

Definition Qltb (x y : Q) : bool := negb (Qle_bool y x).
Definition Qgtb (x y : Q) : bool := Qltb y x.

Infix "<?" := Qltb (at level 70, no associativity) : Q_scope.
Infix ">?" := Qgtb (at level 70, no associativity) : Q_scope.

(** [M_PI] of <cmath>, with the digits the macro has. *)
Definition M_PI : Q := 3.14159265358979323846.

(** ** The axis constants shared by both classes

    [enum { AXIS_ROLL = 0, AXIS_PITCH, AXIS_YAW }] *)

Inductive axis : Set := AXIS_ROLL | AXIS_PITCH | AXIS_YAW.

Definition axis_eqb (a b : axis) : bool :=
  match a, b with
  | AXIS_ROLL, AXIS_ROLL | AXIS_PITCH, AXIS_PITCH | AXIS_YAW, AXIS_YAW => true
  | _, _ => false
  end.

(** ** Fixed-size arrays *)

Record array3 (A : Type) : Type := mkArray3 { elt0 : A; elt1 : A; elt2 : A }.
Arguments mkArray3 {A} _ _ _.
Arguments elt0 {A} _.
Arguments elt1 {A} _.
Arguments elt2 {A} _.

Definition get3 {A} (a : array3 A) (k : axis) : A :=
  match k with
  | AXIS_ROLL => elt0 a
  | AXIS_PITCH => elt1 a
  | AXIS_YAW => elt2 a
  end.

Definition set3 {A} (a : array3 A) (k : axis) (v : A) : array3 A :=
  match k with
  | AXIS_ROLL => mkArray3 v (elt1 a) (elt2 a)
  | AXIS_PITCH => mkArray3 (elt0 a) v (elt2 a)
  | AXIS_YAW => mkArray3 (elt0 a) (elt1 a) v
  end.

Definition map3 {A B} (f : A -> B) (a : array3 A) : array3 B :=
  mkArray3 (f (elt0 a)) (f (elt1 a)) (f (elt2 a)).

(** [float x[2]]: the cells of the two cyclic axes.  Index [AXIS_YAW] is out
    of range; the source never uses it there (in C++ it would be undefined
    behaviour), the model reads 0 and writes nothing. *)
Record array2 : Type := mkArray2 { cell0 : Q; cell1 : Q }.

Definition get2 (a : array2) (k : axis) : Q :=
  match k with
  | AXIS_ROLL => cell0 a
  | AXIS_PITCH => cell1 a
  | AXIS_YAW => 0
  end.

Definition set2 (a : array2) (k : axis) (v : Q) : array2 :=
  match k with
  | AXIS_ROLL => mkArray2 v (cell1 a)
  | AXIS_PITCH => mkArray2 (cell0 a) v
  | AXIS_YAW => a
  end.

(** ** Data types of [datatypes.hpp], as the two classes use them *)

(** Modelled from the spec: [datatypes.hpp] is not among the sources.  Spec 3:
    the demands are roll, pitch, yaw and throttle. *)
Record demands_t : Type := mkDemands {
  throttle : Q;
  roll : Q;
  pitch : Q;
  yaw : Q
}.

Definition set_roll (d : demands_t) (v : Q) : demands_t :=
  mkDemands (throttle d) v (pitch d) (yaw d).
Definition set_pitch (d : demands_t) (v : Q) : demands_t :=
  mkDemands (throttle d) (roll d) v (yaw d).
Definition set_yaw (d : demands_t) (v : Q) : demands_t :=
  mkDemands (throttle d) (roll d) (pitch d) v.

(** Modelled from the spec: [datatypes.hpp] is not among the sources.  Spec 3:
    per axis a value in radians and an angular rate in radians per second;
    the stabilizer reads them as [state.pose.orientation[k].value] and
    [.deriv]. *)
Record orientation_t : Type := mkOrientation { value : Q; deriv : Q }.
Record pose_t : Type := mkPose { orientation : array3 orientation_t }.
Record vehicle_state_t : Type := mkVehicleState { pose : pose_t }.

(** ** [Filter]: the helpers of [filter.hpp] that the two classes call *)

Module Filter.

(** Modelled from the spec: [filter.hpp] is not among the sources.  Spec 4.1
    takes the larger of the two stick magnitudes. *)
Definition max (a b : Q) : Q := if a >? b then a else b.

(** Modelled from the spec: [filter.hpp] is not among the sources.  A value
    clamped to the closed range between [lo] and [hi]. *)
Definition constrainMinMax (val lo hi : Q) : Q :=
  if val <? lo then lo else if val >? hi then hi else val.

(** Modelled from the spec: [filter.hpp] is not among the sources.  Spec 4.1:
    the value is clamped to plus or minus [max]. *)
Definition constrainAbs (val max : Q) : Q := constrainMinMax val (- max) max.

(** Modelled from the spec: [filter.hpp] is not among the sources.  Spec 4.1
    and 8: a weighted linear combination; with weight 1 the result is the
    first (rate-based) operand, with weight 0 the second (angle-based). *)
Definition complementary (a b c : Q) : Q := a * c + b * (1 - c).

(** Modelled from the spec: [filter.hpp] is not among the sources.  Degrees
    converted to radians, as [Stabilizer::degreesToRadians] does it. *)
Definition deg2rad (deg : Q) : Q := M_PI * deg / 180.

End Filter.

(** ** [class Stabilizer] *)

Module Stabilizer.

Record Stabilizer : Type := mkStabilizer {
  (* PIDs *)
  _levelP : Q;
  _gyroCyclicP : Q;
  _gyroCyclicI : Q;
  _gyroCyclicD : Q;
  _gyroYawP : Q;
  _gyroYawI : Q;
  (* integrator and derivative history *)
  lastGyro : array2;
  delta1 : array2;
  delta2 : array2;
  errorGyroI : array3 Q;
  bigGyroRate : Q;
  maxArmingAngle : Q
}.

(* Resetting thresholds for PID Integral term *)
Definition gyroWindupMax : Q := 16.0.
Definition bigGyroDegreesPerSecond : Q := 40.0.
(* 0.1f: the single-precision number nearest to one tenth, 13421773 / 2^27 *)
Definition bigYawDemand : Q := 13421773 # 134217728.
Definition maxArmingAngleDegrees : Q := 25.0.

Definition set_lastGyro (s : Stabilizer) (a : array2) : Stabilizer :=
  mkStabilizer (_levelP s) (_gyroCyclicP s) (_gyroCyclicI s) (_gyroCyclicD s)
    (_gyroYawP s) (_gyroYawI s) a (delta1 s) (delta2 s) (errorGyroI s)
    (bigGyroRate s) (maxArmingAngle s).
Definition set_delta1 (s : Stabilizer) (a : array2) : Stabilizer :=
  mkStabilizer (_levelP s) (_gyroCyclicP s) (_gyroCyclicI s) (_gyroCyclicD s)
    (_gyroYawP s) (_gyroYawI s) (lastGyro s) a (delta2 s) (errorGyroI s)
    (bigGyroRate s) (maxArmingAngle s).
Definition set_delta2 (s : Stabilizer) (a : array2) : Stabilizer :=
  mkStabilizer (_levelP s) (_gyroCyclicP s) (_gyroCyclicI s) (_gyroCyclicD s)
    (_gyroYawP s) (_gyroYawI s) (lastGyro s) (delta1 s) a (errorGyroI s)
    (bigGyroRate s) (maxArmingAngle s).
Definition set_errorGyroI (s : Stabilizer) (a : array3 Q) : Stabilizer :=
  mkStabilizer (_levelP s) (_gyroCyclicP s) (_gyroCyclicI s) (_gyroCyclicD s)
    (_gyroYawP s) (_gyroYawI s) (lastGyro s) (delta1 s) (delta2 s) a
    (bigGyroRate s) (maxArmingAngle s).
Definition set_bigGyroRate (s : Stabilizer) (v : Q) : Stabilizer :=
  mkStabilizer (_levelP s) (_gyroCyclicP s) (_gyroCyclicI s) (_gyroCyclicD s)
    (_gyroYawP s) (_gyroYawI s) (lastGyro s) (delta1 s) (delta2 s)
    (errorGyroI s) v (maxArmingAngle s).
Definition set_maxArmingAngle (s : Stabilizer) (v : Q) : Stabilizer :=
  mkStabilizer (_levelP s) (_gyroCyclicP s) (_gyroCyclicI s) (_gyroCyclicD s)
    (_gyroYawP s) (_gyroYawI s) (lastGyro s) (delta1 s) (delta2 s)
    (errorGyroI s) (bigGyroRate s) v.

Definition degreesToRadians (deg : Q) : Q := M_PI * deg / 180.

(** [float computeITermGyro(rateP, rateI, rcCommand, gyroRate, axis)]:
    the returned I term and the stabilizer with [errorGyroI[axis]]
    updated. *)
Definition computeITermGyro (s : Stabilizer) (rateP rateI rcCommand : Q)
    (gyroRate : array3 Q) (axis : axis) : Q * Stabilizer :=
  let error := rcCommand * rateP - get3 gyroRate axis in
  (* Avoid integral windup *)
  let s1 := set_errorGyroI s
              (set3 (errorGyroI s) axis
                 (Filter.constrainAbs (get3 (errorGyroI s) axis + error)
                    gyroWindupMax)) in
  (* Reset integral on quick gyro change or large gyroYaw command *)
  let s2 :=
    if (Qabs (get3 gyroRate axis) >? bigGyroRate s1)
       || (axis_eqb axis AXIS_YAW && (Qabs rcCommand >? bigYawDemand))
    then set_errorGyroI s1 (set3 (errorGyroI s1) axis 0)
    else s1 in
  (get3 (errorGyroI s2) axis * rateI, s2).

Definition computePid (rateP PTerm ITerm DTerm : Q) (gyroRate : array3 Q)
    (axis : axis) : Q :=
  let PTerm := PTerm - get3 gyroRate axis * rateP in
  PTerm + ITerm - DTerm.

(** Computes leveling PID for pitch or roll *)
Definition computeCyclicPid (s : Stabilizer) (rcCommand prop : Q)
    (eulerAngles gyroRate : array3 Q) (imuAxis : axis) : Q * Stabilizer :=
  let '(ITermGyro, s) :=
    computeITermGyro s (_gyroCyclicP s) (_gyroCyclicI s) rcCommand gyroRate
      imuAxis in
  let PTermEuler := (rcCommand - get3 eulerAngles imuAxis) * _levelP s in
  let PTerm := Filter.complementary rcCommand PTermEuler prop in
  let ITerm := ITermGyro * prop in
  let delta := get3 gyroRate imuAxis - get2 (lastGyro s) imuAxis in
  let s := set_lastGyro s (set2 (lastGyro s) imuAxis (get3 gyroRate imuAxis)) in
  let deltaSum := get2 (delta1 s) imuAxis + get2 (delta2 s) imuAxis + delta in
  let s := set_delta2 s (set2 (delta2 s) imuAxis (get2 (delta1 s) imuAxis)) in
  let s := set_delta1 s (set2 (delta1 s) imuAxis delta) in
  let DTerm := deltaSum * _gyroCyclicD s in
  (computePid (_gyroCyclicP s) PTerm ITerm DTerm gyroRate imuAxis, s).


Definition resetIntegral (s : Stabilizer) : Stabilizer :=
  let s := set_errorGyroI s (set3 (errorGyroI s) AXIS_ROLL 0) in
  let s := set_errorGyroI s (set3 (errorGyroI s) AXIS_PITCH 0) in
  set_errorGyroI s (set3 (errorGyroI s) AXIS_YAW 0).

(** One pass of [for (uint8_t axis=0; axis<2; ++axis)] in [init]. *)
Definition init_axis (s : Stabilizer) (axis : axis) : Stabilizer :=
  let s := set_lastGyro s (set2 (lastGyro s) axis 0) in
  let s := set_delta1 s (set2 (delta1 s) axis 0) in
  set_delta2 s (set2 (delta2 s) axis 0).

Definition init (s : Stabilizer) : Stabilizer :=
  (* Zero-out previous values for D term *)
  let s := fold_left init_axis [AXIS_ROLL; AXIS_PITCH] s in
  (* Convert degree parameters to radians for use later *)
  let s := set_bigGyroRate s (degreesToRadians bigGyroDegreesPerSecond) in
  let s := set_maxArmingAngle s (degreesToRadians maxArmingAngleDegrees) in
  (* Initialize gyro error integral *)
  resetIntegral s.

Definition updateDemands (s : Stabilizer) (state : vehicle_state_t)
    (demands : demands_t) : Stabilizer * demands_t :=
  (* Extract Euler angles from vehicle state *)
  let eulerAngles := map3 value (orientation (pose state)) in
  (* Extract gyro rates from vehicle state *)
  let gyroRate := map3 deriv (orientation (pose state)) in
  (* Compute proportion of cyclic demand compared to its maximum *)
  let prop := Filter.max (Qabs (roll demands)) (Qabs (pitch demands)) / 0.5 in
  (* Pitch, roll use leveling based on Euler angles *)
  let '(r, s) :=
    computeCyclicPid s (roll demands) prop eulerAngles gyroRate AXIS_ROLL in
  let demands := set_roll demands r in
  let '(p, s) :=
    computeCyclicPid s (pitch demands) prop eulerAngles gyroRate AXIS_PITCH in
  let demands := set_pitch demands p in
  (* For gyroYaw, P term comes directly from RC command, and D term is zero *)
  let '(ITermGyroYaw, s) :=
    computeITermGyro s (_gyroYawP s) (_gyroYawI s) (yaw demands) gyroRate
      AXIS_YAW in
  let demands :=
    set_yaw demands
      (computePid (_gyroYawP s) (yaw demands) ITermGyroYaw 0 gyroRate AXIS_YAW) in
  (* Prevent "gyroYaw jump" during gyroYaw correction *)
  let demands :=
    set_yaw demands
      (Filter.constrainAbs (yaw demands) (0.1 + Qabs (yaw demands))) in
  (s, demands).

(** A sequence of [updateDemands] calls; between two calls the caller may
    call [resetIntegral] (the control loop does so when the throttle is
    down). *)
Record call : Type := mkCall {
  call_reset : bool;
  call_state : vehicle_state_t;
  call_demands : demands_t
}.

Definition step (s : Stabilizer) (c : call) : Stabilizer :=
  let s := if call_reset c then resetIntegral s else s in
  fst (updateDemands s (call_state c) (call_demands c)).

Definition run (s : Stabilizer) (cs : list call) : Stabilizer :=
  fold_left step cs s.

End Stabilizer.

(** ** [class Hackflight] *)

Module Hackflight.

Definition MAX_ARMING_ANGLE_DEGREES : Q := 25.0.

(** Modelled from the spec: [datatypes.hpp] is not among the sources.  The
    fields of [state_t] are the ones the class reads and writes: the
    [armed] and [failsafe] flags and the Euler angles [rotation[3]]. *)
Record state_t : Type := mkState {
  armed : bool;
  failsafe : bool;
  rotation : array3 Q
}.

(** *** The collaborators, seen through the calls the class makes *)

(** [class Receiver]: what its methods answer during one call of
    [checkReceiver].  [lostSignal] is asked first; [getDemands] is given the
    yaw offset and tells whether new data arrived; [getAux1State] and
    [throttleIsDown] are getters asked after it, with one answer each for
    the whole call.  [demands] are the stick values it holds. *)
Record Receiver : Type := mkReceiver {
  lostSignal : bool;
  getDemands : Q -> bool;
  getAux1State : bool;
  throttleIsDown : bool;
  demands : demands_t
}.

(** [class Sensor]: [ready(time)] and [modifyState(state, time)]. *)
Record Sensor : Type := mkSensor {
  ready : Q -> bool;
  modifyState : state_t -> Q -> state_t
}.

(** [class Board]: [getTime()]; the [n]-th call made by the updater of a
    tick answers [getTime n]. *)
Record Board : Type := mkBoard { getTime : nat -> Q }.

(** Which sensor member a call goes to. *)
Inductive sensor_ref : Set :=
| TheGyrometer
| TheQuaternion
| Sensors (k : nat).

(** The calls on collaborators, in the order they are made. *)
Inductive event : Type :=
| ActuatorCut                               (* _actuator->cut() *)
| ShowArmedStatus (a : bool)                (* _board->showArmedStatus(a) *)
| ReceiverGetDemands (yawOffset : Q)        (* _receiver->getDemands(..) *)
| PidTaskUpdate (seen : state_t)            (* _pidTask.update() *)
| SensorReady (s : sensor_ref) (time : Q)   (* sensor->ready(time) *)
| SensorModifyState (s : sensor_ref) (time : Q)
| ProxySendDisarmed                         (* _proxy->sendDisarmed() *)
| SerialTaskUpdate (seen : state_t).        (* _serialTask.update() *)

(** Inner classes for full vs. lite version *)
Inductive Updater : Set := UpdateFull | UpdateLite.

Record Hackflight : Type := mkHackflight {
  (* Sensors *)
  _sensors : nat -> option Sensor;
  _sensor_count : nat;
  (* Safety *)
  _safeToArm : bool;
  (* Support for headless mode *)
  _yawInitial : Q;
  (* Mandatory sensors on the board *)
  _gyrometer : Sensor;
  _quaternion : Sensor;
  (* Vehicle state *)
  _state : state_t;
  _updater : option Updater
}.

Definition with_state (h : Hackflight) (st : state_t) : Hackflight :=
  mkHackflight (_sensors h) (_sensor_count h) (_safeToArm h) (_yawInitial h)
    (_gyrometer h) (_quaternion h) st (_updater h).
Definition with_safeToArm (h : Hackflight) (b : bool) : Hackflight :=
  mkHackflight (_sensors h) (_sensor_count h) b (_yawInitial h)
    (_gyrometer h) (_quaternion h) (_state h) (_updater h).
Definition with_yawInitial (h : Hackflight) (v : Q) : Hackflight :=
  mkHackflight (_sensors h) (_sensor_count h) (_safeToArm h) v
    (_gyrometer h) (_quaternion h) (_state h) (_updater h).
Definition with_sensors (h : Hackflight) (a : nat -> option Sensor) (n : nat)
  : Hackflight :=
  mkHackflight a n (_safeToArm h) (_yawInitial h)
    (_gyrometer h) (_quaternion h) (_state h) (_updater h).
Definition with_updater (h : Hackflight) (u : option Updater) : Hackflight :=
  mkHackflight (_sensors h) (_sensor_count h) (_safeToArm h) (_yawInitial h)
    (_gyrometer h) (_quaternion h) (_state h) u.

Definition with_armed (st : state_t) (b : bool) : state_t :=
  mkState b (failsafe st) (rotation st).
Definition with_failsafe (st : state_t) (b : bool) : state_t :=
  mkState (armed st) b (rotation st).
Definition with_rotation (st : state_t) (r : array3 Q) : state_t :=
  mkState (armed st) (failsafe st) r.

(** *** Member functions as commands: object in, object and calls out *)

Definition Cmd (A : Type) : Type := Hackflight -> A * Hackflight * list event.

Definition ret {A} (a : A) : Cmd A := fun h => (a, h, []).

Definition bind {A B} (c : Cmd A) (k : A -> Cmd B) : Cmd B :=
  fun h =>
    let '(a, h1, t1) := c h in
    let '(b, h2, t2) := k a h1 in
    (b, h2, t1 ++ t2).

Definition this : Cmd Hackflight := fun h => (h, h, []).
Definition assign (f : Hackflight -> Hackflight) : Cmd unit :=
  fun h => (tt, f h, []).
Definition call (e : event) : Cmd unit := fun h => (tt, h, [e]).
Definition when (b : bool) (c : Cmd unit) : Cmd unit :=
  if b then c else ret tt.

Declare Scope cmd_scope.
Delimit Scope cmd_scope with cmd.
Notation "x <- c ;; k" := (bind c (fun x => k))
  (at level 61, c at next level, right associativity) : cmd_scope.
Notation "c ;; k" := (bind c (fun _ => k))
  (at level 61, right associativity) : cmd_scope.
Open Scope cmd_scope.

Definition object_after {A} (r : A * Hackflight * list event) : Hackflight :=
  snd (fst r).
Definition calls_of {A} (r : A * Hackflight * list event) : list event :=
  snd r.

Definition set_armed (b : bool) : Cmd unit :=
  assign (fun h => with_state h (with_armed (_state h) b)).
Definition set_failsafe (b : bool) : Cmd unit :=
  assign (fun h => with_state h (with_failsafe (_state h) b)).

Definition safeAngle (h : Hackflight) (axis : axis) : bool :=
  Qabs (get3 (rotation (_state h)) axis)
    <? Filter.deg2rad MAX_ARMING_ANGLE_DEGREES.

(** [sensor->ready(time)] and, when it answers true,
    [sensor->modifyState(_state, time)]. *)
Definition poll (r : sensor_ref) (sensor : Sensor) (time : Q) : Cmd unit :=
  call (SensorReady r time) ;;
  when (ready sensor time)
    (call (SensorModifyState r time) ;;
     assign (fun h => with_state h (modifyState sensor (_state h) time))).

Definition checkQuaternion (board : Board) (n : nat) : Cmd unit :=
  (* Some quaternion filters may need to know the current time *)
  let time := getTime board n in
  h <- this ;;
  poll TheQuaternion (_quaternion h) time.

Definition checkGyrometer (board : Board) (n : nat) : Cmd unit :=
  (* Some gyrometers may need to know the current time *)
  let time := getTime board n in
  h <- this ;;
  poll TheGyrometer (_gyrometer h) time.

(** One pass of the loop of [checkOptionalSensors]; a NULL cell is never
    below [_sensor_count] and is skipped here. *)
Definition checkOptionalSensor (board : Board) (n : nat) (k : nat) : Cmd unit :=
  h <- this ;;
  match _sensors h k with
  | Some sensor => poll (Sensors k) sensor (getTime board (n + k))
  | None => ret tt
  end.

Fixpoint for_each (ks : list nat) (body : nat -> Cmd unit) : Cmd unit :=
  match ks with
  | [] => ret tt
  | k :: ks => body k ;; for_each ks body
  end.

Definition checkOptionalSensors (board : Board) (n : nat) : Cmd unit :=
  h <- this ;;
  for_each (seq 0 (_sensor_count h)) (checkOptionalSensor board n).

(** [_sensors[_sensor_count++] = sensor] with a [uint8_t] counter. *)
Definition add_sensor (sensor : Sensor) (h : Hackflight) : Hackflight :=
  with_sensors h
    (fun k => if Nat.eqb k (_sensor_count h) then Some sensor else _sensors h k)
    (Nat.modulo (_sensor_count h + 1) 256).

(** The object as its member initialisers leave it.  [_state] and
    [_updater] have none: [general_init] and [init] set them. *)
Definition construct (gyrometer quaternion : Sensor) (garbage : state_t)
  : Hackflight :=
  mkHackflight (fun _ => None) 0%nat false 0 gyrometer quaternion garbage None.

Definition general_init (h : Hackflight) : Hackflight :=
  (* Support adding new sensors and PID controllers *)
  let h := with_sensors h (_sensors h) 0%nat in
  (* Initialize state *)
  let h := with_state h (mkState false false (mkArray3 0 0 0)) in
  (* Setup failsafe *)
  with_state h (with_failsafe (_state h) false).

Definition checkReceiver (rx : Receiver) : Cmd unit :=
  h <- this ;;
  (* Sync failsafe to receiver *)
  if lostSignal rx && armed (_state h) then
    call ActuatorCut ;;
    set_armed false ;;
    set_failsafe true ;;
    call (ShowArmedStatus false)
  else
    (* Check whether receiver data is available *)
    let yawOffset := get3 (rotation (_state h)) AXIS_YAW - _yawInitial h in
    call (ReceiverGetDemands yawOffset) ;;
    if negb (getDemands rx yawOffset) then ret tt
    else
      (* Disarm *)
      h <- this ;;
      when (armed (_state h) && negb (getAux1State rx)) (set_armed false) ;;
      (* Avoid arming if aux1 switch down on startup *)
      h <- this ;;
      when (negb (_safeToArm h))
        (assign (fun h => with_safeToArm h (negb (getAux1State rx)))) ;;
      (* Arm (after lots of safety checks!) *)
      h <- this ;;
      when (_safeToArm h && negb (armed (_state h)) && throttleIsDown rx
            && getAux1State rx && negb (failsafe (_state h))
            && safeAngle h AXIS_ROLL && safeAngle h AXIS_PITCH)
        (set_armed true ;;
         (* grab yaw for headless mode *)
         assign (fun h =>
                   with_yawInitial h (get3 (rotation (_state h)) AXIS_YAW))) ;;
      (* Cut motors on throttle-down *)
      h <- this ;;
      when (armed (_state h) && throttleIsDown rx) (call ActuatorCut) ;;
      (* Set LED based on arming status *)
      h <- this ;;
      call (ShowArmedStatus (armed (_state h))).

(** Modelled from the spec: [timertasks/pidtask.hpp] is not among the
    sources.  [_pidTask.update()] is the stabilizer/PID stage: it reads the
    vehicle state through the pointer it was given and hands the corrected
    demands to the actuator (spec 4.3), with no side effect on the vehicle
    state (spec 4.1).  The call is recorded with the state it reads. *)
Definition _pidTask_update : Cmd unit :=
  h <- this ;; call (PidTaskUpdate (_state h)).

(** Modelled from the spec: [timertasks/serialtask.hpp] is not among the
    sources.  [_serialTask.update()] is the serial/telemetry task (spec
    4.3), recorded with the state it reads. *)
Definition _serialTask_update : Cmd unit :=
  h <- this ;; call (SerialTaskUpdate (_state h)).

Definition updateLite : Cmd unit :=
  (* Use proxy to send the correct channel values when not armed *)
  h <- this ;;
  when (negb (armed (_state h))) (call ProxySendDisarmed) ;;
  (* Update serial comms task *)
  _serialTask_update.

Definition updateFull (board : Board) : Cmd unit :=
  (* Check mandatory sensors *)
  checkGyrometer board 0 ;;
  checkQuaternion board 1 ;;
  (* Check optional sensors *)
  checkOptionalSensors board 2 ;;
  (* Update serial comms task *)
  _serialTask_update.

(** [init(board, imu, receiver, mixer, motors, armed)] *)
Definition init (armed : bool) (h : Hackflight) : Hackflight :=
  (* Do general initialization *)
  let h := general_init h in
  (* Support safety override by simulator *)
  let h := with_state h (with_armed (_state h) armed) in
  (* Support for mandatory sensors *)
  let h := add_sensor (_quaternion h) h in
  let h := add_sensor (_gyrometer h) h in
  (* Set the update function *)
  with_updater h (Some UpdateFull).

(** [init(board, receiver, proxy)] *)
Definition init_lite (h : Hackflight) : Hackflight :=
  (* Do general initialization *)
  let h := general_init h in
  (* Set the update function *)
  with_updater h (Some UpdateLite).

(** [_updater->update()]; the pointer is set by either [init]. *)
Definition _updater_update (board : Board) : Cmd unit :=
  h <- this ;;
  match _updater h with
  | Some UpdateFull => updateFull board
  | Some UpdateLite => updateLite
  | None => ret tt
  end.

Definition update (rx : Receiver) (board : Board) : Cmd unit :=
  (* Grab control signal if available *)
  checkReceiver rx ;;
  (* Update PID controllers task *)
  _pidTask_update ;;
  (* Run full or lite update function *)
  _updater_update board.

(** *** Sequences of calls

    Between two calls of [checkReceiver] the sensors may rewrite the Euler
    angles of the vehicle state; a cycle gives the angles in force at the
    call and the receiver's answers. *)
Record cycle : Type := mkCycle {
  cycle_rotation : array3 Q;
  cycle_rx : Receiver
}.

Definition sense (h : Hackflight) (r : array3 Q) : Hackflight :=
  with_state h (with_rotation (_state h) r).

Definition cycle_step (h : Hackflight) (c : cycle) : Hackflight :=
  object_after (checkReceiver (cycle_rx c) (sense h (cycle_rotation c))).

Definition run (h : Hackflight) (cs : list cycle) : Hackflight :=
  fold_left cycle_step cs h.

(** A call of [checkReceiver] observes the arm switch when it gets as far
    as reading it: no failsafe return, and new receiver data. *)
Definition reads_aux1 (h : Hackflight) (rx : Receiver) : bool :=
  negb (lostSignal rx && armed (_state h))
  && getDemands rx (get3 (rotation (_state h)) AXIS_YAW - _yawInitial h).

(** *** The stages of a tick *)

Inductive stage : Set :=
| StReceiver | StPid | StGyrometer | StQuaternion | StOptional | StProxy
| StSerial.

Definition stage_of (e : event) : stage :=
  match e with
  | ActuatorCut | ShowArmedStatus _ | ReceiverGetDemands _ => StReceiver
  | PidTaskUpdate _ => StPid
  | SensorReady TheGyrometer _ | SensorModifyState TheGyrometer _ => StGyrometer
  | SensorReady TheQuaternion _ | SensorModifyState TheQuaternion _ =>
      StQuaternion
  | SensorReady (Sensors _) _ | SensorModifyState (Sensors _) _ => StOptional
  | ProxySendDisarmed => StProxy
  | SerialTaskUpdate _ => StSerial
  end.

(** The position of each stage in the order [update] runs them. *)
Definition code_rank (s : stage) : nat :=
  match s with
  | StReceiver => 0
  | StPid => 1
  | StGyrometer => 2
  | StQuaternion => 3
  | StOptional => 4
  | StProxy => 4
  | StSerial => 5
  end.

(** The order of spec 4.3: checks, mandatory sensors, optional sensors,
    stabilizer, serial task. *)
Definition spec_rank (s : stage) : nat :=
  match s with
  | StReceiver => 0
  | StGyrometer => 1
  | StQuaternion => 1
  | StOptional => 2
  | StProxy => 2
  | StPid => 3
  | StSerial => 4
  end.

Definition in_order (rank : stage -> nat) (t : list event) : Prop :=
  StronglySorted (fun a b => (rank (stage_of a) <= rank (stage_of b))%nat) t.

End Hackflight.

(** ** Vocabulary of the statements about [Stabilizer] *)

Module StabilizerFacts.

Import Stabilizer.

(** The rate of an axis and the demand of an axis, as [updateDemands]
    reads them. *)
Definition angularRate (state : vehicle_state_t) (a : axis) : Q :=
  deriv (get3 (orientation (pose state)) a).

Definition eulerAngle (state : vehicle_state_t) (a : axis) : Q :=
  value (get3 (orientation (pose state)) a).

Definition demand_of (d : demands_t) (a : axis) : Q :=
  match a with
  | AXIS_ROLL => roll d
  | AXIS_PITCH => pitch d
  | AXIS_YAW => yaw d
  end.

(** The condition under which [computeITermGyro] zeroes the integral. *)
Definition resets (s : Stabilizer) (rcCommand : Q) (gyroRate : array3 Q)
    (a : axis) : bool :=
  (Qabs (get3 gyroRate a) >? bigGyroRate s)
  || (axis_eqb a AXIS_YAW && (Qabs rcCommand >? bigYawDemand)).

Definition within_windup (s : Stabilizer) : Prop :=
  forall a, Qabs (get3 (errorGyroI s) a) <= gyroWindupMax.

(** The value [computeITermGyro] leaves in [errorGyroI[a]]. *)
Definition integral_after (s : Stabilizer) (rateP rc : Q)
    (gyroRate : array3 Q) (a : axis) : Q :=
  if resets s rc gyroRate a then 0
  else Filter.constrainAbs
         (get3 (errorGyroI s) a + (rc * rateP - get3 gyroRate a))
         gyroWindupMax.

(** The proportion of cyclic demand [updateDemands] computes. *)
Definition cyclic_prop (d : demands_t) : Q :=
  Filter.max (Qabs (roll d)) (Qabs (pitch d)) / 0.5.

(** The yaw correction before the final clamp of [updateDemands]. *)
Definition yaw_pid (s : Stabilizer) (state : vehicle_state_t) (d : demands_t)
  : Q :=
  let gyr := map3 deriv (orientation (pose state)) in
  computePid (_gyroYawP s) (yaw d)
    (integral_after s (_gyroYawP s) (yaw d) gyr AXIS_YAW * _gyroYawI s) 0
    gyr AXIS_YAW.

(** *** Concrete inputs *)

(** A stabilizer with every gain 1, after [init]. *)
Definition unit_gains : Stabilizer :=
  init (mkStabilizer 1 1 1 1 1 1 (mkArray2 0 0) (mkArray2 0 0) (mkArray2 0 0)
          (mkArray3 0 0 0) 0 0).

Definition vehicle (angles rates : array3 Q) : vehicle_state_t :=
  mkVehicleState
    (mkPose (mkArray3 (mkOrientation (elt0 angles) (elt0 rates))
                      (mkOrientation (elt1 angles) (elt1 rates))
                      (mkOrientation (elt2 angles) (elt2 rates)))).

(** Level, turning about the yaw axis at 1 rad/s. *)
Definition yawing : vehicle_state_t :=
  vehicle (mkArray3 0 0 0) (mkArray3 0 0 1).

(** Level, rolling at 1 rad/s. *)
Definition rolling : vehicle_state_t :=
  vehicle (mkArray3 0 0 0) (mkArray3 1 0 0).

(** Banked by 1 rad about the roll axis, not rotating. *)
Definition banked : vehicle_state_t :=
  vehicle (mkArray3 1 0 0) (mkArray3 0 0 0).

Definition sticks_centered : demands_t := mkDemands 0 0 0 0.

End StabilizerFacts.

(** ** Vocabulary of the statements about [Hackflight] *)

Module HackflightFacts.

Import Hackflight.

(** The argument [checkReceiver] passes to [getDemands]. *)
Definition yawOffset (h : Hackflight) : Q :=
  get3 (rotation (_state h)) AXIS_YAW - _yawInitial h.

(** The test of the arming [if], on the object as the call finds it. *)
Definition arm_gesture (h : Hackflight) (rx : Receiver) : bool :=
  _safeToArm h && negb (armed (_state h)) && throttleIsDown rx
  && getAux1State rx && negb (failsafe (_state h))
  && safeAngle h AXIS_ROLL && safeAngle h AXIS_PITCH.

(** The object after a call that got new receiver data. *)
Definition after_data (h : Hackflight) (rx : Receiver) : Hackflight :=
  let arm := arm_gesture h rx in
  mkHackflight (_sensors h) (_sensor_count h)
    (_safeToArm h || negb (getAux1State rx))
    (if arm then get3 (rotation (_state h)) AXIS_YAW else _yawInitial h)
    (_gyrometer h) (_quaternion h)
    (mkState (if arm then true else armed (_state h) && getAux1State rx)
       (failsafe (_state h)) (rotation (_state h)))
    (_updater h).

(** The object after the failsafe return. *)
Definition after_failsafe (h : Hackflight) : Hackflight :=
  with_state h (mkState false true (rotation (_state h))).

(** The call makes the DISARMED to ARMED transition. *)
Definition arms (rx : Receiver) (h : Hackflight) : Prop :=
  armed (_state h) = false
  /\ armed (_state (object_after (checkReceiver rx h))) = true.

(** Some call of the sequence, started from [h], read the arm switch and
    found it de-asserted. *)
Fixpoint observed_released (h : Hackflight) (cs : list cycle) : bool :=
  match cs with
  | [] => false
  | c :: cs =>
      (reads_aux1 (sense h (cycle_rotation c)) (cycle_rx c)
       && negb (getAux1State (cycle_rx c)))
      || observed_released (cycle_step h c) cs
  end.

(** Every call of the list belongs to stage [s]; every call of the list
    belongs to a stage of position [k] or later. *)
Definition at_stage (s : stage) (t : list event) : Prop :=
  Forall (fun e => stage_of e = s) t.

Definition from_rank (k : nat) (t : list event) : Prop :=
  Forall (fun e => (k <= code_rank (stage_of e))%nat) t.

(** In failsafe the state is disarmed. *)
Definition failsafe_disarms (h : Hackflight) : Prop :=
  failsafe (_state h) = true -> armed (_state h) = false.

(** *** Concrete inputs *)

Definition idle_sensor : Sensor := mkSensor (fun _ => false) (fun st _ => st).

(** A gyrometer that is always ready and reports the roll angle 1. *)
Definition tilting_sensor : Sensor :=
  mkSensor (fun _ => true)
    (fun st _ => with_rotation st (mkArray3 1 0 0)).

Definition boot (g q : Sensor) : Hackflight :=
  init false (construct g q (mkState true true (mkArray3 7 7 7))).

Definition level : array3 Q := mkArray3 0 0 0.

(** Receiver answers: signal lost?, new data?, aux1, throttle down. *)
Definition answers (lost data aux1 down : bool) : Receiver :=
  mkReceiver lost (fun _ => data) aux1 down (mkDemands 0 0 0 0).

Definition switch_released : cycle :=
  mkCycle level (answers false true false true).
Definition gesture : cycle :=
  mkCycle level (answers false true true true).
Definition gesture_without_data : cycle :=
  mkCycle level (answers false false true true).
Definition link_lost : cycle :=
  mkCycle level (answers true true true true).

(** Booted, then one call with the switch released: disarmed, latch set. *)
Definition ready_to_arm : Hackflight :=
  run (boot idle_sensor idle_sensor) [switch_released].

(** Then the arm gesture: armed. *)
Definition flying : Hackflight := run ready_to_arm [gesture].

Definition wall_clock : Board := mkBoard (fun n => inject_Z (Z.of_nat n)).

End HackflightFacts.

From Stdlib Require Import PeanoNat ZArith.

(** ** Further vocabulary for [Stabilizer] *)

Module StabilizerMore.

Import Stabilizer StabilizerFacts.

(** The sum of rate deltas that [computeCyclicPid] multiplies by
    [_gyroCyclicD] when called on [s] with the rates of [state]. *)
Definition deltaSum (s : Stabilizer) (state : vehicle_state_t) (a : axis) : Q :=
  get2 (delta1 s) a + get2 (delta2 s) a
  + (angularRate state a - get2 (lastGyro s) a).

(** Integrators and derivative history all zero. *)
Definition quiescent (s : Stabilizer) : Prop :=
  (forall a, get3 (errorGyroI s) a == 0)
  /\ (forall a, get2 (lastGyro s) a == 0)
  /\ (forall a, get2 (delta1 s) a == 0)
  /\ (forall a, get2 (delta2 s) a == 0).

(** A call made while the vehicle is level and not rotating, with the roll,
    pitch and yaw sticks centred. *)
Definition at_rest (c : call) : Prop :=
  (forall a, angularRate (call_state c) a == 0)
  /\ (forall a, eulerAngle (call_state c) a == 0)
  /\ (forall a, demand_of (call_demands c) a == 0).

(** What one call of the sequence returns. *)
Definition output (s : Stabilizer) (c : call) : demands_t :=
  let s := if call_reset c then resetIntegral s else s in
  snd (updateDemands s (call_state c) (call_demands c)).

(** *** Concrete inputs *)

Definition hover (thr : Q) : call :=
  mkCall false (vehicle (mkArray3 0 0 0) (mkArray3 0 0 0)) (mkDemands thr 0 0 0).

Definition turning (r p y : Q) : call :=
  mkCall false (vehicle (mkArray3 0 0 0) (mkArray3 r p y)) (mkDemands 0.5 0 0 0).

End StabilizerMore.

(** ** Further vocabulary for [Hackflight] *)

Module HackflightMore.

Import Hackflight HackflightFacts.

(** [void addSensor(Sensor * sensor)] *)
Definition addSensor (sensor : Sensor) (h : Hackflight) : Hackflight :=
  add_sensor sensor h.

(** [addSensor] called for each sensor of a list, first to last. *)
Definition addSensors (ss : list Sensor) (h : Hackflight) : Hackflight :=
  fold_left (fun h sensor => addSensor sensor h) ss h.

(** The vehicle state after polling one sensor at [time]. *)
Definition polled (sensor : Sensor) (time : Q) (st : state_t) : state_t :=
  if ready sensor time then modifyState sensor st time else st.

(** The calls of one poll. *)
Definition poll_trace (r : sensor_ref) (sensor : Sensor) (time : Q)
  : list event :=
  SensorReady r time
    :: (if ready sensor time then [SensorModifyState r time] else []).

(** The receiver neither reports a lost signal nor has new data, whatever
    yaw offset it is given. *)
Definition silent (c : cycle) : Prop :=
  lostSignal (cycle_rx c) = false
  /\ forall yawOffset, getDemands (cycle_rx c) yawOffset = false.

Definition is_modify (e : event) : bool :=
  match e with SensorModifyState _ _ => true | _ => false end.

(** *** Concrete inputs *)

Definition silence : cycle := mkCycle (mkArray3 1 1 1) (answers false false false false).

Definition release_in_flight : Receiver := answers false true false false.

Definition lite_boot : Hackflight :=
  init_lite (construct idle_sensor idle_sensor (mkState true true (mkArray3 7 7 7))).

End HackflightMore.

(** ** [class SoftwareQuaternionBoard] ([boards/software_quaternion.hpp]) *)

Module SoftwareQuaternionBoard.

(** Values of the unsigned integer types, with their wrap-around. *)
Definition uint8 (z : Z) : Z := (z mod 2 ^ 8)%Z.
Definition uint32 (z : Z) : Z := (z mod 2 ^ 32)%Z.

(** Update quaternion after this number of gyro updates *)
Definition QUATERNION_DIVISOR : Z := 5%Z.

Section WithFilter.

(** [MadgwickQuaternionFilter6DOF] comes from [filters.hpp], which is not
    among the sources: its state, its [update(ax, ay, az, gx, gy, gz,
    deltat)] and its outputs [q1] .. [q4] are parameters. *)
Variable MadgwickQuaternionFilter6DOF : Type.
Variable filter_update :
  MadgwickQuaternionFilter6DOF -> Q -> Q -> Q -> Q -> Q -> Q -> Q ->
  MadgwickQuaternionFilter6DOF.
Variables q1 q2 q3 q4 : MadgwickQuaternionFilter6DOF -> Q.

Record SoftwareQuaternionBoard : Type := mkSoftwareQuaternionBoard {
  _quaternionFilter : MadgwickQuaternionFilter6DOF;
  _quatCycleCount : Z;                  (* uint8_t *)
  _timePrev : Z;                        (* static uint32_t of getQuaternion *)
  _ax : Q; _ay : Q; _az : Q;
  _gx : Q; _gy : Q; _gz : Q
}.

(** [float quat[4]], the caller's buffer. *)
Record quat_t : Type := mkQuat { quat0 : Q; quat1 : Q; quat2 : Q; quat3 : Q }.

(** [bool getQuaternion(float quat[4])]; [micros] is what [micros()]
    answers if it is called.  Returns the result, the caller's buffer and
    the board. *)
Definition getQuaternion (micros : Z) (b : SoftwareQuaternionBoard)
    (quat : quat_t) : bool * quat_t * SoftwareQuaternionBoard :=
  (* Update quaternion after some number of IMU readings *)
  let count := uint8 ((_quatCycleCount b + 1) mod QUATERNION_DIVISOR)%Z in
  if (count =? 0)%Z then
    (* Set integration time by time elapsed since last filter update *)
    let timeCurr := micros in
    let deltat := inject_Z (uint32 (timeCurr - _timePrev b)) / 1000000 in
    (* Run the quaternion on the IMU values acquired in getGyrometer() *)
    let f := filter_update (_quaternionFilter b)
               (- _ax b) (_ay b) (_az b) (_gx b) (- _gy b) (- _gz b) deltat in
    (* Copy the quaternion back out *)
    (true, mkQuat (q1 f) (q2 f) (q3 f) (q4 f),
     mkSoftwareQuaternionBoard f count timeCurr
       (_ax b) (_ay b) (_az b) (_gx b) (_gy b) (_gz b))
  else
    (false, quat,
     mkSoftwareQuaternionBoard (_quaternionFilter b) count (_timePrev b)
       (_ax b) (_ay b) (_az b) (_gx b) (_gy b) (_gz b)).

(** Successive calls, one per element of [times], on the same buffer: the
    results in order, then the buffer and the board at the end. *)
Fixpoint getQuaternions (times : list Z) (b : SoftwareQuaternionBoard)
    (quat : quat_t) : list bool * quat_t * SoftwareQuaternionBoard :=
  match times with
  | [] => ([], quat, b)
  | t :: times =>
      let '(r, quat, b) := getQuaternion t b quat in
      let '(rs, quat, b) := getQuaternions times b quat in
      (r :: rs, quat, b)
  end.

End WithFilter.

Arguments _quaternionFilter {_} _.
Arguments _quatCycleCount {_} _.
Arguments _timePrev {_} _.
Arguments mkSoftwareQuaternionBoard {_} _ _ _ _ _ _ _ _ _.

(** *** Concrete inputs

    A stand-in filter that adds up the integration times it is given. *)
Definition summing_update (f ax ay az gx gy gz deltat : Q) : Q := f + deltat.

Definition fresh_board : SoftwareQuaternionBoard Q :=
  mkSoftwareQuaternionBoard 0 0%Z 0%Z 0 0 0 0 0 0.

End SoftwareQuaternionBoard.

(** ** The firmware's [class Hackflight] (stick-gesture arming)

    The class that arms and disarms by stick positions and counts down the
    gyro and accelerometer calibration, with the macros for stick
    positions defined above it.  Its collaborators ([rc], [imu], [stab],
    [mixer], [msp], the board and the three [TimedTask]s) are seen through
    the calls the class makes and the answers it gets. *)

Module Firmware.

Section WithDemandIndices.

(** The channel indices [DEMAND_ROLL] .. [DEMAND_THROTTLE] come from
    [rc.hpp], which is not among the sources: they are parameters. *)
Variables DEMAND_ROLL DEMAND_PITCH DEMAND_YAW DEMAND_THROTTLE : Z.

(* For logical combinations of stick positions (low, center, high) *)
Definition ROL_LO : Z := Z.shiftl 1 (2 * DEMAND_ROLL).
Definition ROL_CE : Z := Z.shiftl 3 (2 * DEMAND_ROLL).
Definition ROL_HI : Z := Z.shiftl 2 (2 * DEMAND_ROLL).
Definition PIT_LO : Z := Z.shiftl 1 (2 * DEMAND_PITCH).
Definition PIT_CE : Z := Z.shiftl 3 (2 * DEMAND_PITCH).
Definition PIT_HI : Z := Z.shiftl 2 (2 * DEMAND_PITCH).
Definition YAW_LO : Z := Z.shiftl 1 (2 * DEMAND_YAW).
Definition YAW_CE : Z := Z.shiftl 3 (2 * DEMAND_YAW).
Definition YAW_HI : Z := Z.shiftl 2 (2 * DEMAND_YAW).
Definition THR_LO : Z := Z.shiftl 1 (2 * DEMAND_THROTTLE).
Definition THR_CE : Z := Z.shiftl 3 (2 * DEMAND_THROTTLE).
Definition THR_HI : Z := Z.shiftl 2 (2 * DEMAND_THROTTLE).

(** The four stick combinations [gotRcUpdate] compares [rc.sticks] with. *)
Definition sticks_disarm : Z := (THR_LO + YAW_LO + PIT_CE + ROL_CE)%Z.
Definition sticks_gyro_calibration : Z := (THR_LO + YAW_LO + PIT_LO + ROL_CE)%Z.
Definition sticks_arm : Z := (THR_LO + YAW_HI + PIT_CE + ROL_CE)%Z.
Definition sticks_accel_calibration : Z :=
  (THR_HI + YAW_LO + PIT_LO + ROL_CE)%Z.

(** The members of the class that its functions read and write, and the
    two function-local statics ([taskOrder] of [update], [on] of
    [blinkLedForTilt]). *)
Record Hackflight : Type := mkHackflight {
  armed : bool;
  accCalibrated : bool;
  calibratingGyroCycles : Z;            (* uint16_t *)
  calibratingAccelCycles : Z;           (* uint16_t *)
  accelCalibrationCountdown : Z;        (* uint16_t *)
  gyroCalibrationCountdown : Z;         (* uint16_t *)
  haveSmallAngle : bool;
  smallAngle : Z;                       (* uint16_t *)
  taskOrder : Z;                        (* static int *)
  on : bool                             (* static bool *)
}.

Definition with_armed (h : Hackflight) (v : bool) : Hackflight :=
  mkHackflight v (accCalibrated h) (calibratingGyroCycles h)
    (calibratingAccelCycles h) (accelCalibrationCountdown h)
    (gyroCalibrationCountdown h) (haveSmallAngle h) (smallAngle h)
    (taskOrder h) (on h).
Definition with_accCalibrated (h : Hackflight) (v : bool) : Hackflight :=
  mkHackflight (armed h) v (calibratingGyroCycles h)
    (calibratingAccelCycles h) (accelCalibrationCountdown h)
    (gyroCalibrationCountdown h) (haveSmallAngle h) (smallAngle h)
    (taskOrder h) (on h).
Definition with_accelCalibrationCountdown (h : Hackflight) (v : Z)
  : Hackflight :=
  mkHackflight (armed h) (accCalibrated h) (calibratingGyroCycles h)
    (calibratingAccelCycles h) v
    (gyroCalibrationCountdown h) (haveSmallAngle h) (smallAngle h)
    (taskOrder h) (on h).
Definition with_gyroCalibrationCountdown (h : Hackflight) (v : Z)
  : Hackflight :=
  mkHackflight (armed h) (accCalibrated h) (calibratingGyroCycles h)
    (calibratingAccelCycles h) (accelCalibrationCountdown h)
    v (haveSmallAngle h) (smallAngle h)
    (taskOrder h) (on h).
Definition with_haveSmallAngle (h : Hackflight) (v : bool) : Hackflight :=
  mkHackflight (armed h) (accCalibrated h) (calibratingGyroCycles h)
    (calibratingAccelCycles h) (accelCalibrationCountdown h)
    (gyroCalibrationCountdown h) v (smallAngle h)
    (taskOrder h) (on h).
Definition with_taskOrder (h : Hackflight) (v : Z) : Hackflight :=
  mkHackflight (armed h) (accCalibrated h) (calibratingGyroCycles h)
    (calibratingAccelCycles h) (accelCalibrationCountdown h)
    (gyroCalibrationCountdown h) (haveSmallAngle h) (smallAngle h)
    v (on h).
Definition with_on (h : Hackflight) (v : bool) : Hackflight :=
  mkHackflight (armed h) (accCalibrated h) (calibratingGyroCycles h)
    (calibratingAccelCycles h) (accelCalibrationCountdown h)
    (gyroCalibrationCountdown h) (haveSmallAngle h) (smallAngle h)
    (taskOrder h) v.

(** [class RC] after [rc.update(board)]: the field [sticks] and what
    [auxState()], [throttleIsDown()] and [changed()] answer. *)
Record RC : Type := mkRC {
  sticks : Z;
  auxState : Z;
  throttleIsDown : bool;
  changed : bool
}.

(** What the collaborators answer during one [update()]. *)
Record tick : Type := mkTick {
  rcTask_checkAndUpdate : bool;         (* rcTask.checkAndUpdate(getMicros()) *)
  rcSerialReady : bool;                 (* board->rcSerialReady() *)
  rc : RC;
  extrasGetTaskCount : Z;               (* board->extrasGetTaskCount() *)
  currentTime : Z;                      (* getMicros() in updateImu *)
  imuTask_checkAndUpdate : bool;        (* imuTask.checkAndUpdate(currentTime) *)
  imu_angle0 : Z;                       (* imu.angle[0] after imu.update *)
  imu_angle1 : Z;                       (* imu.angle[1] after imu.update *)
  calibrationTime : Z;                  (* getMicros() in updateCalibrationState *)
  accelCalibrationTask_check : bool     (* accelCalibrationTask.check(..) *)
}.

(** The calls on collaborators, in the order they are made. *)
Inductive event : Type :=
| ExtrasPerformTask (task : Z)
| RcUpdate
| ShowAuxStatus (aux : Z)
| StabResetIntegral
| ShowArmedStatus (a : bool)
| ExtrasCheckSwitch
| RcComputeExpo
| ImuUpdate (time : Z) (a : bool) (accelCountdown gyroCountdown : Z)
| StabUpdate
| MixerUpdate (a : bool)
| MspUpdate (a : bool)
| LedSet (id : Z) (is_on : bool)
| AccelCalibrationTaskUpdate (time : Z).

Definition Cmd (A : Type) : Type := Hackflight -> A * Hackflight * list event.

Definition ret {A} (a : A) : Cmd A := fun h => (a, h, []).

Definition bind {A B} (c : Cmd A) (k : A -> Cmd B) : Cmd B :=
  fun h =>
    let '(a, h1, t1) := c h in
    let '(b, h2, t2) := k a h1 in
    (b, h2, t1 ++ t2).

Definition this : Cmd Hackflight := fun h => (h, h, []).
Definition assign (f : Hackflight -> Hackflight) : Cmd unit :=
  fun h => (tt, f h, []).
Definition call (e : event) : Cmd unit := fun h => (tt, h, [e]).
Definition when (b : bool) (c : Cmd unit) : Cmd unit :=
  if b then c else ret tt.

Declare Scope fw_scope.
Delimit Scope fw_scope with fw.
Notation "x <- c ;; k" := (bind c (fun x => k))
  (at level 61, c at next level, right associativity) : fw_scope.
Notation "c ;; k" := (bind c (fun _ => k))
  (at level 61, right associativity) : fw_scope.
Local Open Scope fw_scope.
Local Open Scope Z_scope.

Definition result_of {A} (r : A * Hackflight * list event) : A := fst (fst r).
Definition object_after {A} (r : A * Hackflight * list event) : Hackflight :=
  snd (fst r).
Definition calls_of {A} (r : A * Hackflight * list event) : list event :=
  snd r.

Definition blinkLedForTilt : Cmd unit :=
  h <- this ;;
  if on h then
    call (LedSet 0 false) ;;
    assign (fun h => with_on h false)
  else
    call (LedSet 0 true) ;;
    assign (fun h => with_on h true).

Definition updateCalibrationState (t : tick) : Cmd unit :=
  h <- this ;;
  when (accelCalibrationCountdown h >? 0)
    (assign (fun h =>
               with_accelCalibrationCountdown h (accelCalibrationCountdown h - 1))) ;;
  h <- this ;;
  when (gyroCalibrationCountdown h >? 0)
    (assign (fun h =>
               with_gyroCalibrationCountdown h (gyroCalibrationCountdown h - 1))) ;;
  assign (fun h =>
            with_haveSmallAngle h
              ((Z.abs (imu_angle0 t) <? smallAngle h)
               && (Z.abs (imu_angle1 t) <? smallAngle h))) ;;
  (* use LEDs to indicate calibration and arming status *)
  h <- this ;;
  (if (accelCalibrationCountdown h >? 0) || (gyroCalibrationCountdown h >? 0)
   then call (LedSet 0 true)
   else
     when (accCalibrated h) (call (LedSet 0 false)) ;;
     if armed h then call (LedSet 1 true) else call (LedSet 1 false)) ;;
  (* If angle too steep, restart accel calibration and flash LED *)
  when (accelCalibrationTask_check t)
    (h <- this ;;
     if negb (haveSmallAngle h) then
       assign (fun h => with_accCalibrated h false) ;;
       blinkLedForTilt ;;
       call (AccelCalibrationTaskUpdate (calibrationTime t))
     else
       assign (fun h => with_accCalibrated h true)).

(** The [IMU] class is outside these sources; [imu.update] is recorded as a
    call that is handed the armed flag and the two countdowns as values and
    writes none of the members. *)
Definition updateImu (t : tick) : Cmd unit :=
  when (imuTask_checkAndUpdate t)
    ((* compute exponential RC commands *)
     call RcComputeExpo ;;
     h <- this ;;
     call (ImuUpdate (currentTime t) (armed h) (accelCalibrationCountdown h)
             (gyroCalibrationCountdown h)) ;;
     (* periodically update accelerometer calibration status *)
     updateCalibrationState t ;;
     (* Stabilization, mixing, and MSP are synced to IMU update *)
     call StabUpdate ;;
     h <- this ;;
     call (MixerUpdate (armed h)) ;;
     call (MspUpdate (armed h))).

Definition gotRcUpdate (t : tick) : Cmd bool :=
  (* if it's not time to update, and we have no new serial RC values,
     we're done *)
  if negb (rcTask_checkAndUpdate t) && negb (rcSerialReady t) then ret false
  else
    (* update RC channels *)
    call RcUpdate ;;
    (* useful for simulator *)
    h <- this ;;
    when (armed h) (call (ShowAuxStatus (auxState (rc t)))) ;;
    (* when landed, reset integral component of PID *)
    when (throttleIsDown (rc t)) (call StabResetIntegral) ;;
    when (changed (rc t))
      (h <- this ;;
       (* actions during armed *)
       if armed h then
         (* Disarm on throttle down + yaw *)
         when (sticks (rc t) =? sticks_disarm)
           (h <- this ;;
            when (armed h)
              (assign (fun h => with_armed h false) ;;
               h <- this ;;
               call (ShowArmedStatus (armed h))))
       (* actions during not armed *)
       else
         (* gyro calibration *)
         when (sticks (rc t) =? sticks_gyro_calibration)
           (assign (fun h =>
                      with_gyroCalibrationCountdown h (calibratingGyroCycles h))) ;;
         (* Arm via throttle-low / yaw-right *)
         h <- this ;;
         when (sticks (rc t) =? sticks_arm)
           (when ((gyroCalibrationCountdown h =? 0) && accCalibrated h)
              ((* aux switch must be in zero position *)
               when (auxState (rc t) =? 0)
                 (when (negb (armed h))
                    (assign (fun h => with_armed h true) ;;
                     h <- this ;;
                     call (ShowArmedStatus (armed h)))))) ;;
         (* accel calibration *)
         when (sticks (rc t) =? sticks_accel_calibration)
           (assign (fun h =>
                      with_accelCalibrationCountdown h
                        (calibratingAccelCycles h)))) ;;
    (* Detect aux switch changes for hover, altitude-hold, etc. *)
    call ExtrasCheckSwitch ;;
    ret true.

Definition update (t : tick) : Cmd unit :=
  (* If we didn't get new RC values, we can use the time to perform any
     extra tasks ("outer loop") *)
  got <- gotRcUpdate t ;;
  when (negb got)
    (h <- this ;;
     call (ExtrasPerformTask (taskOrder h)) ;;
     assign (fun h => with_taskOrder h (taskOrder h + 1)) ;;
     h <- this ;;
     (* using >= supports zero or more tasks *)
     when (taskOrder h >=? extrasGetTaskCount t)
       (assign (fun h => with_taskOrder h 0))) ;;
  (* Regardless, we always update the IMU ("inner loop") *)
  updateImu t.

(** The members as [init] and [initImuRc] leave them.  [gyroCycles] and
    [accelCycles] stand for the two [(uint16_t)(1000. * milli / micro)]
    values computed from the board's configuration and [small] for
    [imuConfig.smallAngle]; [accelCalibrationCountdown] and the two statics
    are not assigned and keep what they had. *)
Definition init (small gyroCycles accelCycles : Z) (h : Hackflight)
  : Hackflight :=
  mkHackflight false false gyroCycles accelCycles
    (accelCalibrationCountdown h)
    (* always do gyro calibration at startup *)
    gyroCycles
    (* assume shallow angle (no accelerometer calibration needed) *)
    true small (taskOrder h) (on h).

(** A sequence of [update()] calls. *)
Definition run (h : Hackflight) (ts : list tick) : Hackflight :=
  fold_left (fun h t => object_after (update t h)) ts h.

End WithDemandIndices.

End Firmware.

(** ** Vocabulary of the statements about the firmware's [Hackflight] *)

Module FirmwareFacts.

Import Firmware.

Local Open Scope Z_scope.

Section WithDemandIndices.

Variables DEMAND_ROLL DEMAND_PITCH DEMAND_YAW DEMAND_THROTTLE : Z.

(** The object after the stick actions of [gotRcUpdate], for a disarmed
    and for an armed state. *)
Definition after_sticks_disarmed (t : tick) (h : Hackflight) : Hackflight :=
  let s := sticks (rc t) in
  let h1 := if s =? sticks_gyro_calibration DEMAND_ROLL DEMAND_PITCH
                      DEMAND_YAW DEMAND_THROTTLE
            then with_gyroCalibrationCountdown h (calibratingGyroCycles h)
            else h in
  let h2 := if (s =? sticks_arm DEMAND_ROLL DEMAND_PITCH DEMAND_YAW
                       DEMAND_THROTTLE)
               && (gyroCalibrationCountdown h1 =? 0) && accCalibrated h1
               && (auxState (rc t) =? 0)
            then with_armed h1 true
            else h1 in
  if s =? sticks_accel_calibration DEMAND_ROLL DEMAND_PITCH DEMAND_YAW
            DEMAND_THROTTLE
  then with_accelCalibrationCountdown h2 (calibratingAccelCycles h2)
  else h2.

Definition after_sticks_armed (t : tick) (h : Hackflight) : Hackflight :=
  if sticks (rc t) =? sticks_disarm DEMAND_ROLL DEMAND_PITCH DEMAND_YAW
                        DEMAND_THROTTLE
  then with_armed h false
  else h.

Definition after_rc (t : tick) (h : Hackflight) : Hackflight :=
  if changed (rc t) then
    if armed h then after_sticks_armed t h else after_sticks_disarmed t h
  else h.

End WithDemandIndices.

(** The RC channels are due for an update in this tick. *)
Definition rc_due (t : tick) : bool :=
  rcTask_checkAndUpdate t || rcSerialReady t.

(** The object after [updateCalibrationState]. *)
Definition small_angle (small : Z) (t : tick) : bool :=
  (Z.abs (imu_angle0 t) <? small) && (Z.abs (imu_angle1 t) <? small).

(** A countdown after its guarded decrement. *)
Definition decremented (c : Z) : Z := if c >? 0 then c - 1 else c.

(** The object after [updateCalibrationState], and the calls it makes. *)
Definition after_calibration (t : tick) (h : Hackflight) : Hackflight :=
  let level := small_angle (smallAngle h) t in
  mkHackflight (armed h)
    (if accelCalibrationTask_check t then level else accCalibrated h)
    (calibratingGyroCycles h) (calibratingAccelCycles h)
    (decremented (accelCalibrationCountdown h))
    (decremented (gyroCalibrationCountdown h))
    level (smallAngle h) (taskOrder h)
    (if accelCalibrationTask_check t && negb level then negb (on h) else on h).

Definition calibration_calls (t : tick) (h : Hackflight) : list event :=
  (if (decremented (accelCalibrationCountdown h) >? 0)
      || (decremented (gyroCalibrationCountdown h) >? 0)
   then [LedSet 0 true]
   else (if accCalibrated h then [LedSet 0 false] else [])
        ++ [LedSet 1 (armed h)])
  ++ (if accelCalibrationTask_check t && negb (small_angle (smallAngle h) t)
      then [LedSet 0 (negb (on h));
            AccelCalibrationTaskUpdate (calibrationTime t)]
      else []).

(** The static [taskOrder] after the extras branch of [update]. *)
Definition after_extras (t : tick) (h : Hackflight) : Hackflight :=
  with_taskOrder h
    (if taskOrder h + 1 >=? extrasGetTaskCount t then 0 else taskOrder h + 1).

(** The calls of [updateImu] on [h] when the IMU task is due. *)
Definition imu_calls (t : tick) (h : Hackflight) : list event :=
  RcComputeExpo
    :: ImuUpdate (currentTime t) (armed h) (accelCalibrationCountdown h)
         (gyroCalibrationCountdown h)
    :: calibration_calls t h
    ++ [StabUpdate; MixerUpdate (armed h); MspUpdate (armed h)].

(** An IMU update in which the accelerometer calibration task is due and
    finds both angles below [small]. *)
Definition levelled (small : Z) (t : tick) : bool :=
  imuTask_checkAndUpdate t && accelCalibrationTask_check t
  && small_angle small t.

(** What the arming logic keeps true from [init] on, after [n] IMU updates
    of which one was [levelled] exactly when [seen]: the countdown still
    owes the updates not yet made, and calibrated or armed states have the
    updates behind them. *)
Definition calibration_inv (small g : Z) (h : Hackflight) (n : Z)
    (seen : bool) : Prop :=
  calibratingGyroCycles h = g /\ smallAngle h = small /\ 0 <= n
  /\ g <= gyroCalibrationCountdown h + n
  /\ (accCalibrated h = true -> seen = true)
  /\ (armed h = true -> g <= n /\ seen = true).

(** The number of ticks of the list in which the IMU update ran. *)
Definition imu_updates (ts : list tick) : Z :=
  Z.of_nat (length (filter imuTask_checkAndUpdate ts)).

(** [updateCalibrationState] called once per element of the list. *)
Definition calibrations (ts : list tick) (h : Hackflight) : Hackflight :=
  fold_left (fun h t => object_after (updateCalibrationState t h)) ts h.

(** The tasks handed to [extrasPerformTask] by a list of calls. *)
Fixpoint tasks_performed (calls : list event) : list Z :=
  match calls with
  | [] => []
  | ExtrasPerformTask k :: calls => k :: tasks_performed calls
  | _ :: calls => tasks_performed calls
  end.

Section Traces.

Variables DEMAND_ROLL DEMAND_PITCH DEMAND_YAW DEMAND_THROTTLE : Z.

(** All the calls of a sequence of [update()] calls. *)
Fixpoint trace (h : Hackflight) (ts : list tick) : list event :=
  match ts with
  | [] => []
  | t :: ts =>
      let r := update DEMAND_ROLL DEMAND_PITCH DEMAND_YAW DEMAND_THROTTLE t h in
      calls_of r ++ trace (object_after r) ts
  end.

End Traces.

(** *** Concrete inputs: the usual channel order *)

Definition power_on : Hackflight :=
  mkHackflight true true 7 7 7 7 false 7 0 false.

(** Sticks [s], aux switch at 0, changed since the last update. *)
Definition rc_tick (s : Z) : tick :=
  mkTick true false (mkRC s 0 true true) 2 1000 false 0 0 1000 false.

(** An IMU update with level angles and the accelerometer task due. *)
Definition imu_tick : tick :=
  mkTick false false (mkRC 0 0 true false) 2 1000 true 0 0 1000 true.

(** Disarmed, calibrated, the gyro countdown run out. *)
Definition standing_by : Hackflight :=
  mkHackflight false true 7 7 0 0 true 7 0 false.

(** An IMU update with the first angle steep and the accelerometer task
    due. *)
Definition tilted_tick : tick :=
  mkTick false false (mkRC 0 0 true false) 2 1000 true 30 0 1000 true.

(** Neither RC nor IMU due; [n] extras tasks. *)
Definition idle_tick (n : Z) : tick :=
  mkTick false false (mkRC 0 0 true false) n 1000 false 0 0 1000 false.

End FirmwareFacts.

(** * Properties *)

(** ** Comparisons *)

Lemma Qltb_lt (x y : Q) : (x <? y) = true <-> x < y.
Proof.
  unfold Qltb. rewrite negb_true_iff, <- not_true_iff_false, Qle_bool_iff.
  split; [apply Qnot_le_lt | apply Qlt_not_le].
Qed.

Lemma Qltb_ge (x y : Q) : (x <? y) = false <-> y <= x.
Proof.
  unfold Qltb. rewrite negb_false_iff. apply Qle_bool_iff.
Qed.

Lemma Qgtb_gt (x y : Q) : (x >? y) = true <-> y < x.
Proof. apply Qltb_lt. Qed.


Lemma Qabs_le_iff (x m : Q) : Qabs x <= m <-> - m <= x /\ x <= m.
Proof. apply Qabs_Qle_condition. Qed.


(** Case analysis on the first comparison that blocks the goal. *)
Ltac compare_floats :=
  match goal with
  | |- context [ ?x <? ?y ] =>
      let E := fresh "E" in
      destruct (x <? y) eqn:E;
      [ apply Qltb_lt in E | apply Qltb_ge in E ]
  end.

(** ** [Filter] *)

Lemma constrainMinMax_range (v lo hi : Q) :
  lo <= hi -> lo <= Filter.constrainMinMax v lo hi <= hi.
Proof.
  intros Hlh. unfold Filter.constrainMinMax, Qgtb.
  repeat compare_floats; lra.
Qed.

Lemma constrainAbs_bound (v m : Q) :
  0 <= m -> Qabs (Filter.constrainAbs v m) <= m.
Proof.
  intros Hm. apply Qabs_le_iff. unfold Filter.constrainAbs.
  apply constrainMinMax_range. lra.
Qed.

Lemma constrainAbs_id (v m : Q) :
  Qabs v <= m -> Filter.constrainAbs v m = v.
Proof.
  intros H. apply Qabs_le_iff in H.
  unfold Filter.constrainAbs, Filter.constrainMinMax, Qgtb.
  repeat compare_floats; try reflexivity; lra.
Qed.

Lemma constrainAbs_zero (v m : Q) :
  0 <= m -> v == 0 -> Filter.constrainAbs v m == 0.
Proof.
  intros Hm Hv. unfold Filter.constrainAbs, Filter.constrainMinMax, Qgtb.
  repeat compare_floats; lra.
Qed.

Lemma get3_set3_same {A} (a : array3 A) (k : axis) (v : A) :
  get3 (set3 a k v) k = v.
Proof. destruct k; reflexivity. Qed.


Lemma get3_map3 {A B} (f : A -> B) (a : array3 A) (k : axis) :
  get3 (map3 f a) k = f (get3 a k).
Proof. destruct k; reflexivity. Qed.

(** ** The integrator of [Stabilizer] *)

Section Integrator.

Import Stabilizer StabilizerFacts.

Lemma gyroWindupMax_nonneg : 0 <= gyroWindupMax.
Proof. unfold gyroWindupMax. lra. Qed.

Lemma computeITermGyro_eq s rateP rateI rc gyroRate a :
  computeITermGyro s rateP rateI rc gyroRate a
  = (integral_after s rateP rc gyroRate a * rateI,
     set_errorGyroI s
       (set3 (errorGyroI s) a (integral_after s rateP rc gyroRate a))).
Proof.
  unfold computeITermGyro, integral_after, resets.
  cbn [bigGyroRate set_errorGyroI].
  destruct (_ || _); cbn [errorGyroI set_errorGyroI];
    rewrite ?get3_set3_same; try reflexivity.
  destruct a; reflexivity.
Qed.

Lemma computeCyclicPid_eq s rc prop eulerAngles gyroRate a :
  computeCyclicPid s rc prop eulerAngles gyroRate a
  = let i := integral_after s (_gyroCyclicP s) rc gyroRate a in
    let delta := get3 gyroRate a - get2 (lastGyro s) a in
    (computePid (_gyroCyclicP s)
       (Filter.complementary rc ((rc - get3 eulerAngles a) * _levelP s) prop)
       (i * _gyroCyclicI s * prop)
       ((get2 (delta1 s) a + get2 (delta2 s) a + delta) * _gyroCyclicD s)
       gyroRate a,
     mkStabilizer (_levelP s) (_gyroCyclicP s) (_gyroCyclicI s)
       (_gyroCyclicD s) (_gyroYawP s) (_gyroYawI s)
       (set2 (lastGyro s) a (get3 gyroRate a))
       (set2 (delta1 s) a delta)
       (set2 (delta2 s) a (get2 (delta1 s) a))
       (set3 (errorGyroI s) a i)
       (bigGyroRate s) (maxArmingAngle s)).
Proof.
  unfold computeCyclicPid. rewrite computeITermGyro_eq. reflexivity.
Qed.

(** [updateDemands] with the calls it makes written out. *)
Lemma updateDemands_eq s state d :
  updateDemands s state d
  = let eul := map3 value (orientation (pose state)) in
    let gyr := map3 deriv (orientation (pose state)) in
    let prop := Filter.max (Qabs (roll d)) (Qabs (pitch d)) / 0.5 in
    let r := computeCyclicPid s (roll d) prop eul gyr AXIS_ROLL in
    let p := computeCyclicPid (snd r) (pitch d) prop eul gyr AXIS_PITCH in
    let i := integral_after (snd p) (_gyroYawP s) (yaw d) gyr AXIS_YAW in
    let y := computePid (_gyroYawP s) (yaw d) (i * _gyroYawI s) 0 gyr AXIS_YAW in
    (set_errorGyroI (snd p) (set3 (errorGyroI (snd p)) AXIS_YAW i),
     mkDemands (throttle d) (fst r) (fst p)
       (Filter.constrainAbs y (0.1 + Qabs y))).
Proof.
  unfold updateDemands.
  rewrite !computeCyclicPid_eq. cbv beta iota zeta.
  rewrite !computeCyclicPid_eq. cbv beta iota zeta.
  rewrite computeITermGyro_eq. reflexivity.
Qed.

(** The integrator cell of every axis after one [updateDemands]. *)
Lemma updateDemands_errorGyroI s state d a :
  get3 (errorGyroI (fst (updateDemands s state d))) a
  = integral_after s
      (if axis_eqb a AXIS_YAW then _gyroYawP s else _gyroCyclicP s)
      (demand_of d a) (map3 deriv (orientation (pose state))) a.
Proof.
  rewrite updateDemands_eq. cbv beta iota zeta.
  rewrite !computeCyclicPid_eq. cbv beta iota zeta.
  cbn [fst snd errorGyroI set_errorGyroI].
  unfold integral_after, resets.
  cbn [bigGyroRate errorGyroI _gyroCyclicP].
  destruct a; cbn [get3 set3 elt0 elt1 elt2 axis_eqb demand_of]; reflexivity.
Qed.

Lemma updateDemands_cyclic s state d a :
  a <> AXIS_YAW ->
  demand_of (snd (updateDemands s state d)) a
  = computePid (_gyroCyclicP s)
      (Filter.complementary (demand_of d a)
         ((demand_of d a - eulerAngle state a) * _levelP s) (cyclic_prop d))
      (integral_after s (_gyroCyclicP s) (demand_of d a)
         (map3 deriv (orientation (pose state))) a
       * _gyroCyclicI s * cyclic_prop d)
      ((get2 (delta1 s) a + get2 (delta2 s) a
        + (angularRate state a - get2 (lastGyro s) a)) * _gyroCyclicD s)
      (map3 deriv (orientation (pose state))) a.
Proof.
  intros Ha. rewrite updateDemands_eq. cbv beta iota zeta.
  rewrite !computeCyclicPid_eq. cbv beta iota zeta.
  cbn [fst snd]. unfold integral_after, resets, eulerAngle, angularRate.
  cbn [bigGyroRate errorGyroI _gyroCyclicP _gyroCyclicI _gyroCyclicD _levelP
       lastGyro delta1 delta2].
  destruct a; [ | | congruence];
    cbn [get3 set3 get2 set2 elt0 elt1 elt2 cell0 cell1 demand_of roll pitch
         map3];
    reflexivity.
Qed.

Lemma updateDemands_yaw_clamped s state d :
  yaw (snd (updateDemands s state d))
  = Filter.constrainAbs (yaw_pid s state d) (0.1 + Qabs (yaw_pid s state d)).
Proof.
  rewrite updateDemands_eq. cbv beta iota zeta.
  rewrite !computeCyclicPid_eq. cbv beta iota zeta.
  cbn [fst snd yaw]. unfold yaw_pid, integral_after, resets.
  cbn [bigGyroRate errorGyroI get3 set3 elt0 elt1 elt2].
  reflexivity.
Qed.

(** The clamp of the last statement of [updateDemands] bounds the value by
    a limit computed from that same value: it never changes it. *)
Lemma updateDemands_yaw s state d :
  yaw (snd (updateDemands s state d)) = yaw_pid s state d.
Proof.
  rewrite updateDemands_yaw_clamped. apply constrainAbs_id.
  pose proof (Qabs_nonneg (yaw_pid s state d)). lra.
Qed.

Lemma resetIntegral_errorGyroI s a : get3 (errorGyroI (resetIntegral s)) a = 0.
Proof. destruct a; reflexivity. Qed.

Lemma init_errorGyroI s a : get3 (errorGyroI (init s)) a = 0.
Proof. destruct a; reflexivity. Qed.


Lemma integral_after_bound s rateP rc gyroRate a :
  Qabs (integral_after s rateP rc gyroRate a) <= gyroWindupMax.
Proof.
  unfold integral_after. destruct (resets _ _ _ _).
  - apply gyroWindupMax_nonneg.
  - apply constrainAbs_bound, gyroWindupMax_nonneg.
Qed.

Lemma step_within_windup s c : within_windup (step s c).
Proof.
  intros a. unfold step. rewrite updateDemands_errorGyroI.
  apply integral_after_bound.
Qed.

Lemma run_within_windup cs :
  forall s, within_windup s -> within_windup (run s cs).
Proof.
  unfold run. induction cs as [| c cs IH]; intros s Hs; cbn [fold_left].
  - exact Hs.
  - apply IH, step_within_windup.
Qed.

(** C3.  Starting from [init], after every sequence of [updateDemands]
    calls with arbitrary vehicle states and demands (with or without
    [resetIntegral] calls in between), the accumulated integral of every
    axis satisfies |errorGyroI[axis]| <= gyroWindupMax = 16. *)
Theorem errorGyroI_within_gyroWindupMax (s0 : Stabilizer) (cs : list call)
    (a : axis) :
  Qabs (get3 (errorGyroI (run (init s0) cs)) a) <= gyroWindupMax
  /\ gyroWindupMax == 16.
Proof.
  split; [ | reflexivity].
  apply run_within_windup. intros b. rewrite init_errorGyroI.
  apply gyroWindupMax_nonneg.
Qed.

Lemma resets_true s rc gyroRate a :
  bigGyroRate s < Qabs (get3 gyroRate a)
  \/ (a = AXIS_YAW /\ bigYawDemand < Qabs rc) ->
  resets s rc gyroRate a = true.
Proof.
  unfold resets. intros [H | [-> H]]; apply orb_true_iff.
  - left. now apply Qgtb_gt.
  - right. cbn [axis_eqb andb]. now apply Qgtb_gt.
Qed.

(** C7.  In a stabilizer whose big-rate threshold is the one [init] sets (40
    degrees per second in radians), the [updateDemands] call in which
    |angularRate[axis]| exceeds that threshold, or in which the axis is yaw
    and |yaw demand| exceeds bigYawDemand (the code's constant 0.1f, that
    is 13421773 / 2^27), leaves errorGyroI[axis] exactly zero, whatever had
    been accumulated. *)
Theorem errorGyroI_reset_on_big_rate_or_yaw_demand (s : Stabilizer)
    (state : vehicle_state_t) (d : demands_t) (a : axis) :
  bigGyroRate s == degreesToRadians bigGyroDegreesPerSecond ->
  degreesToRadians bigGyroDegreesPerSecond < Qabs (angularRate state a)
  \/ (a = AXIS_YAW /\ bigYawDemand < Qabs (yaw d)) ->
  get3 (errorGyroI (fst (updateDemands s state d))) a = 0.
Proof.
  intros Hbig Hcond. rewrite updateDemands_errorGyroI.
  unfold integral_after. rewrite resets_true; [reflexivity | ].
  rewrite get3_map3. fold (angularRate state a).
  destruct Hcond as [H | [-> H]]; [left; lra | right; auto].
Qed.

Lemma errorGyroI_reset_witness :
  get3 (errorGyroI (fst (updateDemands unit_gains rolling sticks_centered)))
    AXIS_ROLL = 0.
Proof.
  apply errorGyroI_reset_on_big_rate_or_yaw_demand.
  - reflexivity.
  - left. vm_compute. reflexivity.
Defined.

(** The comparison with [bigYawDemand] is strict: at a yaw demand of exactly
    0.1f (unit gains, yaw rate 1/32, below the rate threshold) the integral
    is kept, at 0.1f - 1/32. *)
Example yaw_demand_at_bigYawDemand_keeps_integral :
  get3 (errorGyroI
          (fst (updateDemands unit_gains
                  (vehicle (mkArray3 0 0 0) (mkArray3 0 0 (1 # 32)))
                  (mkDemands 0 0 0 bigYawDemand))))
    AXIS_YAW
  == bigYawDemand - (1 # 32).
Proof. vm_compute. reflexivity. Qed.

End Integrator.

(** ** The corrections [updateDemands] returns *)

Section Corrections.

Import Stabilizer StabilizerFacts.

(** One update on a level vehicle rolling at 0.5 rad/s, sticks centred, all
    gains 1: the rate is below the reset threshold, the integral becomes
    -0.5, and the roll correction is P + I - D = -0.5 + 0 - 0.5 = -1. *)
Example updateDemands_rolling_slowly :
  let r := updateDemands unit_gains
             (vehicle (mkArray3 0 0 0) (mkArray3 0.5 0 0)) sticks_centered in
  get3 (errorGyroI (fst r)) AXIS_ROLL == -0.5 /\ roll (snd r) == -1.
Proof. vm_compute. split; reflexivity. Qed.

(** C4.  With every gain 1, the vehicle turning about the yaw axis at
    1 rad/s and all sticks centred (raw yaw demand 0), [updateDemands]
    returns the yaw demand -1: its magnitude is not within
    0.1 + |raw yaw demand| = 0.1.  The final clamp takes its limit from the
    already corrected value. *)
Theorem yaw_clamp_misses_raw_demand :
  let corrected := yaw (snd (updateDemands unit_gains yawing sticks_centered)) in
  corrected == -1
  /\ ~ Qabs corrected <= 0.1 + Qabs (yaw sticks_centered).
Proof.
  cbv zeta. rewrite updateDemands_yaw.
  split.
  - vm_compute. reflexivity.
  - vm_compute. intros H. apply H. reflexivity.
Qed.

Lemma integral_after_zero s rateP rc gyroRate a :
  get3 (errorGyroI s) a == 0 -> rc == 0 -> get3 gyroRate a == 0 ->
  integral_after s rateP rc gyroRate a == 0.
Proof.
  intros He Hrc Hg. unfold integral_after.
  destruct (resets _ _ _ _); [reflexivity | ].
  apply constrainAbs_zero; [apply gyroWindupMax_nonneg | ].
  rewrite He, Hrc, Hg. ring.
Qed.

Lemma cyclic_prop_zero d : roll d == 0 -> pitch d == 0 -> cyclic_prop d == 0.
Proof.
  intros Hr Hp. unfold cyclic_prop, Filter.max.
  destruct (_ >? _); [rewrite Hr | rewrite Hp]; reflexivity.
Qed.

(** C9, as the code has it.  After [resetIntegral()], one [updateDemands]
    with all angular rates zero and all demands zero returns a zero yaw
    correction; the roll and pitch corrections are
    -(eulerAngle * levelP) - (delta1 + delta2 - lastGyro) * gyroCyclicD of
    the axis, which is zero when the Euler angle of the axis and its
    derivative history are zero. *)
Theorem correction_after_resetIntegral_at_rest (s : Stabilizer)
    (state : vehicle_state_t) (d : demands_t) :
  (forall a, angularRate state a == 0) ->
  (forall a, demand_of d a == 0) ->
  let d' := snd (updateDemands (resetIntegral s) state d) in
  demand_of d' AXIS_YAW == 0
  /\ (forall a, a <> AXIS_YAW ->
        demand_of d' a
        == - (eulerAngle state a * _levelP s)
           - (get2 (delta1 s) a + get2 (delta2 s) a - get2 (lastGyro s) a)
             * _gyroCyclicD s)
  /\ (forall a, a <> AXIS_YAW ->
        eulerAngle state a == 0 -> get2 (lastGyro s) a == 0 ->
        get2 (delta1 s) a == 0 -> get2 (delta2 s) a == 0 ->
        demand_of d' a == 0).
Proof.
  intros Hrate Hdem d'.
  assert (Hcyc : forall a, a <> AXIS_YAW ->
            demand_of d' a
            == - (eulerAngle state a * _levelP s)
               - (get2 (delta1 s) a + get2 (delta2 s) a - get2 (lastGyro s) a)
                 * _gyroCyclicD s).
  { intros a Ha. unfold d'. rewrite (updateDemands_cyclic _ _ _ a Ha).
    unfold computePid, Filter.complementary.
    set (i := integral_after _ _ _ _ _). clearbody i.
    rewrite get3_map3. fold (angularRate state a).
    rewrite (cyclic_prop_zero d (Hdem AXIS_ROLL) (Hdem AXIS_PITCH)).
    rewrite (Hrate a), (Hdem a).
    cbn [resetIntegral set_errorGyroI _gyroCyclicP _gyroCyclicI _gyroCyclicD
         _levelP delta1 delta2 lastGyro].
    ring. }
  split; [ | split].
  - cbn [demand_of]. unfold d'. rewrite updateDemands_yaw.
    unfold yaw_pid, computePid.
    rewrite integral_after_zero.
    + rewrite get3_map3. fold (angularRate state AXIS_YAW).
      rewrite (Hrate AXIS_YAW), (Hdem AXIS_YAW). ring.
    + rewrite resetIntegral_errorGyroI. reflexivity.
    + apply (Hdem AXIS_YAW).
    + rewrite get3_map3. apply (Hrate AXIS_YAW).
  - exact Hcyc.
  - intros a Ha He Hl H1 H2. rewrite (Hcyc a Ha), He, Hl, H1, H2. ring.
Qed.

Lemma correction_after_resetIntegral_witness :
  let d' := snd (updateDemands (resetIntegral unit_gains) banked
                   sticks_centered) in
  demand_of d' AXIS_YAW == 0 /\ demand_of d' AXIS_ROLL == -1
  /\ demand_of d' AXIS_PITCH == 0.
Proof.
  destruct (correction_after_resetIntegral_at_rest unit_gains banked
              sticks_centered) as (Hy & Hc & Hz).
  - intros a; destruct a; reflexivity.
  - intros a; destruct a; reflexivity.
  - split; [exact Hy | split].
    + rewrite Hc by discriminate. reflexivity.
    + apply Hz; [discriminate | reflexivity ..].
Defined.

(** C9, as the spec words it, fails: banked by 1 rad with zero rates and
    centred sticks, right after [resetIntegral()], the roll correction is
    -1, not zero. *)
Lemma zero_rate_zero_demand_correction_not_zero :
  (forall a, angularRate banked a == 0)
  /\ (forall a, demand_of sticks_centered a == 0)
  /\ ~ demand_of
         (snd (updateDemands (resetIntegral unit_gains) banked sticks_centered))
         AXIS_ROLL == 0.
Proof.
  split; [ | split].
  - intros a; destruct a; reflexivity.
  - intros a; destruct a; reflexivity.
  - vm_compute. discriminate.
Qed.

End Corrections.

(** ** [Hackflight::checkReceiver] *)

Import Hackflight HackflightFacts.

(** Runs the commands of a member function on an object given by its
    fields, leaving the arithmetic alone. *)
Ltac crunch_cmd :=
  cbv [Hackflight.checkReceiver bind this call assign when ret set_armed set_failsafe
       with_state with_armed with_failsafe with_safeToArm with_yawInitial
       safeAngle lostSignal getDemands getAux1State throttleIsDown
       _state _safeToArm _yawInitial _sensors _sensor_count _gyrometer
       _quaternion _updater armed failsafe rotation
       after_data after_failsafe arm_gesture yawOffset
       negb andb orb app].

Section CheckReceiver.

(** [checkReceiver] by cases: the failsafe return, the return without
    receiver data, and the full pass. *)
Lemma checkReceiver_eq (rx : Receiver) (h : Hackflight) :
  checkReceiver rx h
  = if lostSignal rx && armed (_state h) then
      (tt, after_failsafe h, [ActuatorCut; ShowArmedStatus false])
    else if negb (getDemands rx (yawOffset h)) then
      (tt, h, [ReceiverGetDemands (yawOffset h)])
    else
      let h' := after_data h rx in
      (tt, h',
       ReceiverGetDemands (yawOffset h)
         :: (if armed (_state h') && throttleIsDown rx then [ActuatorCut]
             else [])
         ++ [ShowArmedStatus (armed (_state h'))]).
Proof.
  destruct h as [sens cnt sta yi gy qu [ar fs rot] up].
  destruct rx as [ls gd aux thr dm].
  destruct ls, ar, aux, sta, thr, fs; crunch_cmd; try reflexivity;
    destruct (gd _); crunch_cmd; try reflexivity;
    destruct (Qabs (get3 rot AXIS_ROLL) <? _); crunch_cmd; try reflexivity;
    destruct (Qabs (get3 rot AXIS_PITCH) <? _); crunch_cmd; reflexivity.
Qed.


(** The arm gesture on a booted, level vehicle whose switch has been
    released once: data is fetched, the motors are cut (throttle is down)
    and the indicator shows armed. *)
Example gesture_after_release_calls :
  calls_of (checkReceiver (cycle_rx gesture) ready_to_arm)
  = [ReceiverGetDemands 0; ActuatorCut; ShowArmedStatus true].
Proof. reflexivity. Qed.

(** The same gesture right after boot, the switch never released: refused. *)
Example gesture_at_boot_calls :
  calls_of (checkReceiver (cycle_rx gesture) (boot idle_sensor idle_sensor))
  = [ReceiverGetDemands 0; ShowArmedStatus false].
Proof. reflexivity. Qed.

Lemma object_after_checkReceiver (rx : Receiver) (h : Hackflight) :
  object_after (checkReceiver rx h)
  = if lostSignal rx && armed (_state h) then after_failsafe h
    else if negb (getDemands rx (yawOffset h)) then h
    else after_data h rx.
Proof.
  rewrite checkReceiver_eq.
  destruct (_ && _); [reflexivity | ].
  destruct (negb _); reflexivity.
Qed.

Lemma arm_gesture_true_iff (h : Hackflight) (rx : Receiver) :
  arm_gesture h rx = true
  <-> _safeToArm h = true /\ armed (_state h) = false
      /\ throttleIsDown rx = true /\ getAux1State rx = true
      /\ failsafe (_state h) = false
      /\ Qabs (get3 (rotation (_state h)) AXIS_ROLL)
         < Filter.deg2rad MAX_ARMING_ANGLE_DEGREES
      /\ Qabs (get3 (rotation (_state h)) AXIS_PITCH)
         < Filter.deg2rad MAX_ARMING_ANGLE_DEGREES.
Proof.
  unfold arm_gesture, safeAngle.
  rewrite !andb_true_iff, !negb_true_iff, !Qltb_lt. tauto.
Qed.

Lemma arms_iff (rx : Receiver) (h : Hackflight) :
  arms rx h
  <-> getDemands rx (yawOffset h) = true /\ arm_gesture h rx = true.
Proof.
  unfold arms. rewrite object_after_checkReceiver.
  destruct (armed (_state h)) eqn:Ea.
  - split; [intros [H _]; discriminate | ].
    intros [_ H]. apply arm_gesture_true_iff in H. rewrite Ea in H.
    destruct H as (_ & H & _). discriminate.
  - rewrite andb_false_r.
    destruct (getDemands rx (yawOffset h)); cbn [negb].
    + unfold after_data; cbn [_state armed]. rewrite Ea.
      destruct (arm_gesture h rx); cbn [andb]; intuition congruence.
    + rewrite Ea. intuition congruence.
Qed.

(** C1, as the code has it.  [checkReceiver] makes the DISARMED to ARMED
    transition if and only if, at that call, the receiver delivers new data
    ([getDemands] answers true) and the safe-to-arm latch is set, the state
    is not armed, the throttle is down, the aux1 switch is asserted, the
    failsafe flag is false, and |roll| and |pitch| are both below 25 degrees
    in radians; on the transition the current yaw angle is stored in
    [_yawInitial]. *)
Theorem arms_iff_gesture_with_receiver_data (rx : Receiver) (h : Hackflight) :
  let limit := Filter.deg2rad MAX_ARMING_ANGLE_DEGREES in
  (arms rx h
   <-> getDemands rx (yawOffset h) = true
       /\ _safeToArm h = true /\ armed (_state h) = false
       /\ throttleIsDown rx = true /\ getAux1State rx = true
       /\ failsafe (_state h) = false
       /\ Qabs (get3 (rotation (_state h)) AXIS_ROLL) < limit
       /\ Qabs (get3 (rotation (_state h)) AXIS_PITCH) < limit)
  /\ (arms rx h ->
      _yawInitial (object_after (checkReceiver rx h))
      = get3 (rotation (_state h)) AXIS_YAW)
  /\ limit == M_PI * 25 / 180.
Proof.
  cbv zeta. split; [ | split].
  - rewrite arms_iff, arm_gesture_true_iff. reflexivity.
  - intros H. pose proof H as [Ea _]. apply arms_iff in H. destruct H as [Hd Hg].
    rewrite object_after_checkReceiver, Ea, andb_false_r, Hd. cbn [negb].
    unfold after_data; cbn [_yawInitial]. rewrite Hg. reflexivity.
  - reflexivity.
Qed.

Lemma arms_witness :
  arms (cycle_rx gesture) (sense ready_to_arm (mkArray3 0 0 3))
  /\ _yawInitial
       (object_after
          (checkReceiver (cycle_rx gesture)
             (sense ready_to_arm (mkArray3 0 0 3)))) = 3.
Proof.
  pose proof (arms_iff_gesture_with_receiver_data (cycle_rx gesture)
                (sense ready_to_arm (mkArray3 0 0 3))) as (Hiff & Hyaw & _).
  assert (Harms : arms (cycle_rx gesture) (sense ready_to_arm (mkArray3 0 0 3))).
  { apply Hiff. repeat split; reflexivity. }
  split; [exact Harms | exact (Hyaw Harms)].
Defined.

(** C1, as the spec words it, fails: with the latch set, the state
    disarmed, throttle down, aux1 asserted, no failsafe and level angles,
    a call in which [getDemands] answers false does not arm. *)
Lemma gesture_without_receiver_data_does_not_arm :
  let h := sense ready_to_arm level in
  let rx := cycle_rx gesture_without_data in
  (_safeToArm h = true /\ armed (_state h) = false
   /\ throttleIsDown rx = true /\ getAux1State rx = true
   /\ failsafe (_state h) = false
   /\ Qabs (get3 (rotation (_state h)) AXIS_ROLL)
      < Filter.deg2rad MAX_ARMING_ANGLE_DEGREES
   /\ Qabs (get3 (rotation (_state h)) AXIS_PITCH)
      < Filter.deg2rad MAX_ARMING_ANGLE_DEGREES)
  /\ ~ arms rx h.
Proof.
  cbv zeta. split.
  - repeat split; reflexivity.
  - intros [_ H]. vm_compute in H. discriminate.
Qed.

(** C2.  In every call of [checkReceiver] with [lostSignal()] true while the
    state is armed, the first call made is [cut()], followed only by
    [showArmedStatus(false)]; the object is left as it was except for
    armed = false and failsafe = true.  The call returns there: no receiver
    data is fetched and no other transition is evaluated, so whatever
    gesture the receiver presents, the state ends disarmed. *)
Theorem lost_signal_while_armed_cuts_and_returns (rx : Receiver)
    (h : Hackflight) :
  lostSignal rx = true -> armed (_state h) = true ->
  calls_of (checkReceiver rx h) = [ActuatorCut; ShowArmedStatus false]
  /\ object_after (checkReceiver rx h)
     = with_state h (mkState false true (rotation (_state h))).
Proof.
  intros Hl Ha. rewrite checkReceiver_eq, Hl, Ha. cbn [andb].
  split; reflexivity.
Qed.

Lemma lost_signal_while_armed_witness :
  calls_of (checkReceiver (cycle_rx link_lost) flying)
  = [ActuatorCut; ShowArmedStatus false]
  /\ object_after (checkReceiver (cycle_rx link_lost) flying)
     = with_state flying (mkState false true (rotation (_state flying))).
Proof.
  apply (lost_signal_while_armed_cuts_and_returns (cycle_rx link_lost) flying);
    reflexivity.
Defined.

End CheckReceiver.

(** ** Sequences of [checkReceiver] calls *)

Section Sequences.

Lemma run_cons (h : Hackflight) (c : cycle) (cs : list cycle) :
  run h (c :: cs) = run (cycle_step h c) cs.
Proof. reflexivity. Qed.

Lemma run_app (h : Hackflight) (cs1 cs2 : list cycle) :
  run h (cs1 ++ cs2) = run (run h cs1) cs2.
Proof. apply fold_left_app. Qed.

Lemma cycle_step_eq (h : Hackflight) (c : cycle) :
  cycle_step h c
  = let h1 := sense h (cycle_rotation c) in
    let rx := cycle_rx c in
    if lostSignal rx && armed (_state h) then after_failsafe h1
    else if reads_aux1 h1 rx then after_data h1 rx
    else h1.
Proof.
  unfold cycle_step. rewrite object_after_checkReceiver.
  cbv zeta. unfold reads_aux1.
  change (armed (_state (sense h (cycle_rotation c)))) with (armed (_state h)).
  fold (yawOffset (sense h (cycle_rotation c))).
  destruct (_ && _); [reflexivity | ].
  destruct (getDemands _ _); reflexivity.
Qed.

(** *** The safe-to-arm latch *)

Lemma latch_step (h : Hackflight) (c : cycle) :
  _safeToArm (cycle_step h c)
  = _safeToArm h
    || (reads_aux1 (sense h (cycle_rotation c)) (cycle_rx c)
        && negb (getAux1State (cycle_rx c))).
Proof.
  rewrite cycle_step_eq. cbv zeta.
  destruct (reads_aux1 _ _) eqn:E.
  - unfold reads_aux1 in E. apply andb_true_iff in E. destruct E as [E _].
    apply negb_true_iff in E.
    change (armed (_state (sense h (cycle_rotation c))))
      with (armed (_state h)) in E.
    rewrite E. reflexivity.
  - cbn [andb]. rewrite orb_false_r.
    destruct (_ && _); reflexivity.
Qed.

Lemma latch_run (cs : list cycle) :
  forall h, _safeToArm (run h cs) = _safeToArm h || observed_released h cs.
Proof.
  induction cs as [| c cs IH]; intros h.
  - cbn. now rewrite orb_false_r.
  - rewrite run_cons, IH, latch_step. cbn [observed_released].
    now rewrite orb_assoc.
Qed.

Lemma unlatched_step_stays_disarmed (h : Hackflight) (c : cycle) :
  _safeToArm (cycle_step h c) = false -> armed (_state h) = false ->
  armed (_state (cycle_step h c)) = false.
Proof.
  intros Hl Ha. rewrite latch_step in Hl. apply orb_false_iff in Hl.
  destruct Hl as [Hl _].
  rewrite cycle_step_eq. cbv zeta. rewrite Ha, andb_false_r.
  destruct (reads_aux1 _ _); [ | exact Ha].
  unfold after_data, arm_gesture; cbn [_state armed _safeToArm sense with_state].
  rewrite Hl. cbn [andb with_rotation armed]. rewrite Ha. reflexivity.
Qed.

Lemma unlatched_run_stays_disarmed (cs : list cycle) :
  forall h, _safeToArm (run h cs) = false -> armed (_state h) = false ->
            armed (_state (run h cs)) = false.
Proof.
  induction cs as [| c cs IH]; intros h Hl Ha.
  - exact Ha.
  - rewrite run_cons in *. apply IH; [exact Hl | ].
    apply unlatched_step_stays_disarmed; [ | exact Ha].
    rewrite latch_run in Hl. apply orb_false_iff in Hl. tauto.
Qed.

Lemma observed_released_app (cs1 cs2 : list cycle) :
  forall h, observed_released h (cs1 ++ cs2)
            = observed_released h cs1 || observed_released (run h cs1) cs2.
Proof.
  induction cs1 as [| c cs1 IH]; intros h.
  - reflexivity.
  - cbn [app observed_released]. rewrite IH, run_cons. now rewrite orb_assoc.
Qed.

(** C6.  Started by [init] (disarmed), after any sequence of
    [checkReceiver] calls the safe-to-arm latch is set exactly when some
    call of the sequence has read the arm switch and found it de-asserted;
    as long as none has, the state is not armed; and once one has, the
    latch is still set after any further calls. *)
Theorem safeToArm_latch (g q : Sensor) (garbage : state_t)
    (cs more : list cycle) :
  let h0 := init false (construct g q garbage) in
  _safeToArm (run h0 cs) = observed_released h0 cs
  /\ (observed_released h0 cs = false -> armed (_state (run h0 cs)) = false)
  /\ (observed_released h0 cs = true -> _safeToArm (run h0 (cs ++ more)) = true).
Proof.
  intros h0.
  assert (H0 : _safeToArm (run h0 cs) = observed_released h0 cs)
    by (rewrite latch_run; reflexivity).
  split; [exact H0 | split].
  - intros Hno. apply unlatched_run_stays_disarmed; [ | reflexivity].
    now rewrite H0.
  - intros Hyes. rewrite latch_run, observed_released_app, Hyes. reflexivity.
Qed.

Lemma safeToArm_latch_witness :
  armed (_state (run (boot idle_sensor idle_sensor) [gesture; gesture])) = false
  /\ _safeToArm
       (run (boot idle_sensor idle_sensor)
          ([gesture; switch_released] ++ [gesture])) = true.
Proof.
  split.
  - apply (safeToArm_latch idle_sensor idle_sensor
             (mkState true true (mkArray3 7 7 7)) [gesture; gesture] []).
    reflexivity.
  - apply (safeToArm_latch idle_sensor idle_sensor
             (mkState true true (mkArray3 7 7 7)) [gesture; switch_released]
             [gesture]).
    reflexivity.
Defined.

(** *** Failsafe *)

Lemma failsafe_step (h : Hackflight) (c : cycle) :
  failsafe (_state h) = true -> failsafe (_state (cycle_step h c)) = true.
Proof.
  intros Hf. rewrite cycle_step_eq. cbv zeta.
  destruct (_ && _); [reflexivity | ].
  destruct (reads_aux1 _ _); exact Hf.
Qed.

Lemma failsafe_disarms_step (h : Hackflight) (c : cycle) :
  failsafe_disarms h -> failsafe_disarms (cycle_step h c).
Proof.
  unfold failsafe_disarms. intros Inv. rewrite cycle_step_eq. cbv zeta.
  destruct (_ && _); [reflexivity | ].
  destruct (reads_aux1 _ _); [ | exact Inv].
  unfold after_data, arm_gesture;
    cbn [_state armed failsafe sense with_state with_rotation].
  intros Hf. rewrite Hf, (Inv Hf). cbn [negb andb].
  rewrite !andb_false_r. reflexivity.
Qed.

Lemma failsafe_run (cs : list cycle) :
  forall h, failsafe (_state h) = true -> failsafe (_state (run h cs)) = true.
Proof.
  induction cs as [| c cs IH]; intros h Hf; [exact Hf | ].
  rewrite run_cons. apply IH, failsafe_step, Hf.
Qed.

Lemma failsafe_disarms_run (cs : list cycle) :
  forall h, failsafe_disarms h -> failsafe_disarms (run h cs).
Proof.
  induction cs as [| c cs IH]; intros h Inv; [exact Inv | ].
  rewrite run_cons. apply IH, failsafe_disarms_step, Inv.
Qed.

(** C10.  Started by [init] (with either value of its [armed] argument),
    once the failsafe flag is true after some calls of [checkReceiver], it
    is true and the state is disarmed after every further sequence of
    calls. *)
Theorem failsafe_is_permanent (a : bool) (g q : Sensor) (garbage : state_t)
    (cs more : list cycle) :
  let h0 := init a (construct g q garbage) in
  failsafe (_state (run h0 cs)) = true ->
  failsafe (_state (run h0 (cs ++ more))) = true
  /\ armed (_state (run h0 (cs ++ more))) = false.
Proof.
  intros h0 Hf.
  assert (Hf' : failsafe (_state (run h0 (cs ++ more))) = true)
    by (rewrite run_app; apply failsafe_run, Hf).
  split; [exact Hf' | ].
  refine (failsafe_disarms_run (cs ++ more) h0 _ Hf').
  intros H. discriminate H.
Qed.

Lemma failsafe_is_permanent_witness :
  failsafe
    (_state (run (boot idle_sensor idle_sensor)
               ([switch_released; gesture; link_lost]
                  ++ [switch_released; gesture]))) = true
  /\ armed
       (_state (run (boot idle_sensor idle_sensor)
                  ([switch_released; gesture; link_lost]
                     ++ [switch_released; gesture]))) = false.
Proof.
  apply (failsafe_is_permanent false idle_sensor idle_sensor
           (mkState true true (mkArray3 7 7 7))
           [switch_released; gesture; link_lost] [switch_released; gesture]).
  reflexivity.
Defined.

End Sequences.

(** ** [Hackflight::update]: one tick *)

Section Tick.

Lemma calls_of_bind {A B} (c : Cmd A) (k : A -> Cmd B) (h : Hackflight) :
  calls_of (bind c k h)
  = calls_of (c h) ++ calls_of (k (fst (fst (c h))) (object_after (c h))).
Proof.
  unfold bind, calls_of, object_after.
  destruct (c h) as [[a h1] t1]; cbn [fst snd].
  destruct (k a h1) as [[b h2] t2]. reflexivity.
Qed.

Lemma object_after_bind {A B} (c : Cmd A) (k : A -> Cmd B) (h : Hackflight) :
  object_after (bind c k h)
  = object_after (k (fst (fst (c h))) (object_after (c h))).
Proof.
  unfold bind, object_after.
  destruct (c h) as [[a h1] t1]; cbn [fst snd].
  destruct (k a h1) as [[b h2] t2]. reflexivity.
Qed.

Lemma calls_of_this_bind {B} (k : Hackflight -> Cmd B) (h : Hackflight) :
  calls_of (bind this k h) = calls_of (k h h).
Proof. rewrite calls_of_bind. reflexivity. Qed.

Lemma at_stage_from_rank (s : stage) (k : nat) (t : list event) :
  (k <= code_rank s)%nat -> at_stage s t -> from_rank k t.
Proof.
  intros Hk. unfold at_stage, from_rank. apply Forall_impl.
  intros e ->. exact Hk.
Qed.

Lemma from_rank_app (k : nat) (t1 t2 : list event) :
  from_rank k t1 -> from_rank k t2 -> from_rank k (t1 ++ t2).
Proof. intros H1 H2. apply Forall_app. split; assumption. Qed.

Lemma from_rank_weaken (k k' : nat) (t : list event) :
  (k <= k')%nat -> from_rank k' t -> from_rank k t.
Proof.
  intros Hk. unfold from_rank. apply Forall_impl. intros e He. lia.
Qed.

(** A block of calls of one stage, followed by calls of that stage or
    later ones already in order. *)
Lemma in_order_block (s : stage) (t rest : list event) :
  at_stage s t -> in_order code_rank rest -> from_rank (code_rank s) rest ->
  in_order code_rank (t ++ rest).
Proof.
  intros Ht Hrest Hlow. induction Ht as [| e t He Ht IH]; cbn [app].
  - exact Hrest.
  - constructor; [exact IH | ].
    apply Forall_app. split.
    + revert Ht. apply Forall_impl. intros e' ->. rewrite He. lia.
    + revert Hlow. apply Forall_impl. intros e' H. rewrite He. exact H.
Qed.

Lemma checkReceiver_calls_at_stage (rx : Receiver) (h : Hackflight) :
  at_stage StReceiver (calls_of (checkReceiver rx h)).
Proof.
  rewrite checkReceiver_eq. unfold at_stage.
  destruct (_ && _); [repeat constructor | ].
  destruct (negb _); [repeat constructor | ].
  cbv zeta. cbn [calls_of snd].
  destruct (_ && _); repeat constructor.
Qed.

Lemma poll_calls (r : sensor_ref) (sensor : Sensor) (time : Q)
    (h : Hackflight) :
  calls_of (poll r sensor time h)
  = SensorReady r time
      :: (if ready sensor time then [SensorModifyState r time] else []).
Proof. unfold poll. destruct (ready sensor time) eqn:E; cbv; rewrite ?E; reflexivity. Qed.

Lemma poll_at_stage (r : sensor_ref) (sensor : Sensor) (time : Q)
    (h : Hackflight) :
  at_stage (stage_of (SensorReady r time)) (calls_of (poll r sensor time h)).
Proof.
  rewrite poll_calls. unfold at_stage.
  destruct (ready sensor time); destruct r; repeat constructor.
Qed.

Lemma checkOptionalSensor_at_stage (board : Board) (n k : nat)
    (h : Hackflight) :
  at_stage StOptional (calls_of (checkOptionalSensor board n k h)).
Proof.
  unfold checkOptionalSensor. rewrite calls_of_bind. cbn [this calls_of snd app fst object_after].
  destruct (_sensors h k) as [sensor | ].
  - apply (poll_at_stage (Sensors k)).
  - constructor.
Qed.

Lemma for_each_at_stage (s : stage) (body : nat -> Cmd unit) :
  (forall k h, at_stage s (calls_of (body k h))) ->
  forall ks h, at_stage s (calls_of (for_each ks body h)).
Proof.
  intros Hbody. induction ks as [| k ks IH]; intros h; cbn [for_each].
  - constructor.
  - rewrite calls_of_bind. apply Forall_app. split; [apply Hbody | apply IH].
Qed.

Lemma checkOptionalSensors_at_stage (board : Board) (n : nat)
    (h : Hackflight) :
  at_stage StOptional (calls_of (checkOptionalSensors board n h)).
Proof.
  unfold checkOptionalSensors. rewrite calls_of_bind.
  cbn [this calls_of snd app fst object_after].
  apply for_each_at_stage. apply checkOptionalSensor_at_stage.
Qed.

(** The calls of [updateFull], stage by stage. *)
Lemma updateFull_calls (board : Board) (h : Hackflight) :
  let h1 := object_after (checkGyrometer board 0 h) in
  let h2 := object_after (checkQuaternion board 1 h1) in
  let h3 := object_after (checkOptionalSensors board 2 h2) in
  calls_of (updateFull board h)
  = calls_of (poll TheGyrometer (_gyrometer h) (getTime board 0) h)
    ++ calls_of (poll TheQuaternion (_quaternion h1) (getTime board 1) h1)
    ++ calls_of (checkOptionalSensors board 2 h2)
    ++ [SerialTaskUpdate (_state h3)].
Proof.
  cbv zeta. unfold updateFull.
  rewrite !calls_of_bind.
  unfold checkGyrometer at 1, checkQuaternion at 1, _serialTask_update.
  rewrite !calls_of_this_bind. reflexivity.
Qed.

Lemma updateFull_in_order (board : Board) (h : Hackflight) :
  in_order code_rank (calls_of (updateFull board h))
  /\ from_rank 2 (calls_of (updateFull board h)).
Proof.
  rewrite updateFull_calls. cbv zeta.
  set (tg := calls_of (poll TheGyrometer _ _ _)).
  set (tq := calls_of (poll TheQuaternion _ _ _)).
  set (to := calls_of (checkOptionalSensors _ _ _)).
  set (ts := [SerialTaskUpdate _]).
  assert (Hg : at_stage StGyrometer tg) by apply (poll_at_stage TheGyrometer).
  assert (Hq : at_stage StQuaternion tq) by apply (poll_at_stage TheQuaternion).
  assert (Ho : at_stage StOptional to) by apply checkOptionalSensors_at_stage.
  assert (Hs : at_stage StSerial ts) by (repeat constructor).
  assert (Hs' : in_order code_rank ts) by (repeat constructor).
  split.
  - apply (in_order_block StGyrometer); [exact Hg | | ].
    + apply (in_order_block StQuaternion); [exact Hq | | ].
      * apply (in_order_block StOptional); [exact Ho | exact Hs' | ].
        apply (at_stage_from_rank StSerial); [cbn; lia | exact Hs].
      * apply from_rank_app;
          [apply (at_stage_from_rank StOptional) | apply (at_stage_from_rank StSerial)];
          (cbn; lia) || assumption.
    + repeat apply from_rank_app;
        [apply (at_stage_from_rank StQuaternion)
        |apply (at_stage_from_rank StOptional)
        |apply (at_stage_from_rank StSerial)];
        (cbn; lia) || assumption.
  - repeat apply from_rank_app;
      [apply (at_stage_from_rank StGyrometer)
      |apply (at_stage_from_rank StQuaternion)
      |apply (at_stage_from_rank StOptional)
      |apply (at_stage_from_rank StSerial)];
      (cbn; lia) || assumption.
Qed.

Lemma updateLite_calls (h : Hackflight) :
  calls_of (updateLite h)
  = (if negb (armed (_state h)) then [ProxySendDisarmed] else [])
    ++ [SerialTaskUpdate (_state h)].
Proof.
  unfold updateLite. rewrite calls_of_this_bind, calls_of_bind.
  destruct (armed (_state h)); reflexivity.
Qed.

(** Every call of the updater stage comes after the receiver and PID
    stages: none of them is a call of [checkReceiver]. *)
Lemma updater_from_rank (board : Board) (h : Hackflight) :
  from_rank 2 (calls_of (_updater_update board h)).
Proof.
  unfold _updater_update. rewrite calls_of_bind.
  cbn [this calls_of snd app fst object_after].
  destruct (_updater h) as [[ | ] | ].
  - apply updateFull_in_order.
  - rewrite updateLite_calls. destruct (negb _); repeat constructor.
  - constructor.
Qed.

(** The calls of one tick: those of [checkReceiver], the PID task on the
    state [checkReceiver] leaves, then the updater. *)
Lemma update_calls (rx : Receiver) (board : Board) (h : Hackflight) :
  let h1 := object_after (checkReceiver rx h) in
  calls_of (update rx board h)
  = calls_of (checkReceiver rx h)
    ++ PidTaskUpdate (_state h1) :: calls_of (_updater_update board h1).
Proof.
  cbv zeta. unfold update, _pidTask_update.
  rewrite !calls_of_bind. reflexivity.
Qed.


(** C5, as the code has it.  In one tick of the full variant the calls
    come in this order: those of [checkReceiver], then the PID task, then
    the gyrometer, then the quaternion, then the optional sensors, then the
    serial task.  The PID task runs on the vehicle state as [checkReceiver]
    leaves it, before the sensor reads of the same tick. *)
Theorem update_full_stage_order (rx : Receiver) (board : Board)
    (h : Hackflight) :
  _updater h = Some UpdateFull ->
  let h1 := object_after (checkReceiver rx h) in
  let t := calls_of (update rx board h) in
  in_order code_rank t
  /\ at_stage StReceiver (calls_of (checkReceiver rx h))
  /\ (exists rest,
        t = calls_of (checkReceiver rx h)
            ++ PidTaskUpdate (_state h1)
               :: SensorReady TheGyrometer (getTime board 0) :: rest
        /\ In (SensorReady TheQuaternion (getTime board 1)) rest
        /\ In (SerialTaskUpdate (_state (object_after (update rx board h))))
             rest).
Proof.
  intros Hu h1 t.
  assert (Hu1 : _updater h1 = Some UpdateFull).
  { unfold h1. rewrite object_after_checkReceiver.
    destruct (_ && _); [exact Hu | ]. destruct (negb _); exact Hu. }
  assert (Ht : t = calls_of (checkReceiver rx h)
                   ++ PidTaskUpdate (_state h1) :: calls_of (updateFull board h1)).
  { unfold t. rewrite update_calls. cbv zeta. fold h1.
    unfold _updater_update. rewrite calls_of_this_bind, Hu1. reflexivity. }
  assert (Hobj : object_after (update rx board h)
                 = object_after (updateFull board h1)).
  { unfold update, _pidTask_update. rewrite !object_after_bind.
    cbn [this call fst snd object_after]. fold h1.
    unfold _updater_update. rewrite object_after_bind.
    cbn [this fst snd object_after]. rewrite Hu1. reflexivity. }
  split; [ | split].
  - rewrite Ht.
    apply (in_order_block StReceiver); [apply checkReceiver_calls_at_stage | | ].
    + apply (in_order_block StPid [PidTaskUpdate (_state h1)]);
        [repeat constructor | | ].
      * apply updateFull_in_order.
      * apply (from_rank_weaken 1 2); [lia | apply updateFull_in_order].
    + constructor; [cbn; lia | ].
      apply (from_rank_weaken 0 2); [lia | apply updateFull_in_order].
  - apply checkReceiver_calls_at_stage.
  - rewrite Ht, Hobj, updateFull_calls. cbv zeta. rewrite poll_calls.
    cbn [app]. eexists. split; [reflexivity | ].
    unfold updateFull, _serialTask_update. rewrite !object_after_bind.
    cbn [this call fst snd object_after].
    split.
    + apply in_or_app. right. rewrite poll_calls. apply in_or_app. left.
      left. reflexivity.
    + apply in_or_app. right. apply in_or_app. right. apply in_or_app. right.
      left. reflexivity.
Qed.

Lemma update_full_stage_order_witness :
  in_order code_rank
    (calls_of
       (update (cycle_rx gesture) wall_clock (boot tilting_sensor idle_sensor))).
Proof.
  apply (update_full_stage_order (cycle_rx gesture) wall_clock
           (boot tilting_sensor idle_sensor)).
  reflexivity.
Defined.

(** C5, as the spec words it, fails: in a tick of the full variant the PID
    task is called before the sensors are read.  Here the gyrometer of the
    tick writes the roll angle 1 and the PID task of the same tick has
    been handed the roll angle 0. *)
Lemma pid_task_precedes_sensor_reads :
  let h := boot tilting_sensor idle_sensor in
  let r := update (cycle_rx gesture) wall_clock h in
  _updater h = Some UpdateFull
  /\ ~ in_order spec_rank (calls_of r)
  /\ In (PidTaskUpdate (mkState false false (mkArray3 0 0 0))) (calls_of r)
  /\ rotation (_state (object_after r)) = mkArray3 1 0 0.
Proof.
  cbv zeta. split; [reflexivity | split; [ | split]].
  - intros H. vm_compute in H.
    repeat match type of H with
           | StronglySorted _ (_ :: _) =>
               apply StronglySorted_inv in H; destruct H as [H F];
               try (apply Forall_inv in F; vm_compute in F; lia); clear F
           end.
  - vm_compute. right. right. left. reflexivity.
  - reflexivity.
Qed.

Lemma cut_in_checkReceiver (rx : Receiver) (h : Hackflight) :
  armed (_state h) = true -> throttleIsDown rx = true ->
  (In ActuatorCut (calls_of (checkReceiver rx h))
   <-> lostSignal rx = true
       \/ (getDemands rx (yawOffset h) = true /\ getAux1State rx = true)).
Proof.
  intros Ha Ht. rewrite checkReceiver_eq, Ha, andb_true_r.
  destruct (lostSignal rx).
  - cbn [calls_of snd]. split; [auto | intros _; left; reflexivity].
  - destruct (getDemands rx (yawOffset h)); cbn [negb].
    + cbv zeta. cbn [calls_of snd].
      unfold after_data, arm_gesture; cbn [_state armed]. rewrite Ha, Ht.
      cbn [negb]. rewrite !andb_false_r, !andb_true_r. cbn [andb].
      destruct (getAux1State rx); cbn [app].
      * split; [auto | intros _; right; left; reflexivity].
      * split; [ | intros [H | [_ H]]; discriminate].
        intros [H | [H | []]]; discriminate.
    + cbn [calls_of snd]. split; [ | intros [H | [H _]]; discriminate].
      intros [H | []]; discriminate.
Qed.

(** C8, as the code has it.  In a tick that starts armed with the receiver
    reporting throttle at minimum, [cut()] is invoked exactly when the
    receiver has lost the signal, or delivers new data with the aux1 switch
    still asserted; the demand values play no part. *)
Theorem cut_when_armed_and_throttle_down (rx : Receiver) (board : Board)
    (h : Hackflight) :
  armed (_state h) = true -> throttleIsDown rx = true ->
  (In ActuatorCut (calls_of (update rx board h))
   <-> lostSignal rx = true
       \/ (getDemands rx (yawOffset h) = true /\ getAux1State rx = true)).
Proof.
  intros Ha Ht. rewrite <- (cut_in_checkReceiver rx h Ha Ht).
  rewrite update_calls. cbv zeta. rewrite in_app_iff.
  split; [ | auto].
  intros [H | [H | H]]; [exact H | discriminate | ].
  pose proof (updater_from_rank board (object_after (checkReceiver rx h))) as F.
  unfold from_rank in F. rewrite Forall_forall in F.
  apply F in H. cbn in H. lia.
Qed.

Lemma cut_when_armed_and_throttle_down_witness :
  In ActuatorCut (calls_of (update (cycle_rx gesture) wall_clock flying)).
Proof.
  apply (cut_when_armed_and_throttle_down (cycle_rx gesture) wall_clock flying);
    [reflexivity | reflexivity | ].
  right. split; reflexivity.
Defined.

(** C8, as the spec words it, fails: armed, throttle at minimum, and a
    tick in which the receiver has no new data makes no call of [cut()]. *)
Lemma no_cut_without_receiver_data :
  let rx := cycle_rx gesture_without_data in
  armed (_state flying) = true /\ throttleIsDown rx = true
  /\ ~ In ActuatorCut (calls_of (update rx wall_clock flying)).
Proof.
  cbv zeta. split; [reflexivity | split; [reflexivity | ]].
  vm_compute. intros H.
  repeat (destruct H as [H | H]; [discriminate H | ]). exact H.
Qed.

End Tick.

(** ** More on [Stabilizer] *)

Section StabilizerExtras.

Import Stabilizer StabilizerFacts StabilizerMore.

Lemma updateDemands_gains s state d :
  let s' := fst (updateDemands s state d) in
  _levelP s' = _levelP s /\ _gyroCyclicP s' = _gyroCyclicP s
  /\ _gyroCyclicI s' = _gyroCyclicI s /\ _gyroCyclicD s' = _gyroCyclicD s
  /\ _gyroYawP s' = _gyroYawP s /\ _gyroYawI s' = _gyroYawI s
  /\ bigGyroRate s' = bigGyroRate s /\ maxArmingAngle s' = maxArmingAngle s.
Proof.
  cbv zeta. rewrite updateDemands_eq. cbv beta iota zeta.
  rewrite !computeCyclicPid_eq. cbv beta iota zeta.
  repeat split.
Qed.

Lemma init_depends_on_gains s s' :
  _levelP s' = _levelP s -> _gyroCyclicP s' = _gyroCyclicP s ->
  _gyroCyclicI s' = _gyroCyclicI s -> _gyroCyclicD s' = _gyroCyclicD s ->
  _gyroYawP s' = _gyroYawP s -> _gyroYawI s' = _gyroYawI s ->
  init s' = init s.
Proof.
  destruct s, s'. cbn [_levelP _gyroCyclicP _gyroCyclicI _gyroCyclicD _gyroYawP
                        _gyroYawI].
  intros -> -> -> -> -> ->. reflexivity.
Qed.

Lemma step_gains s c :
  let s' := step s c in
  _levelP s' = _levelP s /\ _gyroCyclicP s' = _gyroCyclicP s
  /\ _gyroCyclicI s' = _gyroCyclicI s /\ _gyroCyclicD s' = _gyroCyclicD s
  /\ _gyroYawP s' = _gyroYawP s /\ _gyroYawI s' = _gyroYawI s
  /\ bigGyroRate s' = bigGyroRate s /\ maxArmingAngle s' = maxArmingAngle s.
Proof.
  cbv zeta. unfold step.
  pose proof (updateDemands_gains
                (if call_reset c then resetIntegral s else s)
                (call_state c) (call_demands c)) as H.
  cbv zeta in H. destruct (call_reset c); [ | exact H].
  change (_levelP (resetIntegral s)) with (_levelP s) in H.
  change (_gyroCyclicP (resetIntegral s)) with (_gyroCyclicP s) in H.
  change (_gyroCyclicI (resetIntegral s)) with (_gyroCyclicI s) in H.
  change (_gyroCyclicD (resetIntegral s)) with (_gyroCyclicD s) in H.
  change (_gyroYawP (resetIntegral s)) with (_gyroYawP s) in H.
  change (_gyroYawI (resetIntegral s)) with (_gyroYawI s) in H.
  change (bigGyroRate (resetIntegral s)) with (bigGyroRate s) in H.
  change (maxArmingAngle (resetIntegral s)) with (maxArmingAngle s) in H.
  exact H.
Qed.

Lemma run_gains cs :
  forall s,
    let s' := run s cs in
    _levelP s' = _levelP s /\ _gyroCyclicP s' = _gyroCyclicP s
    /\ _gyroCyclicI s' = _gyroCyclicI s /\ _gyroCyclicD s' = _gyroCyclicD s
    /\ _gyroYawP s' = _gyroYawP s /\ _gyroYawI s' = _gyroYawI s
    /\ bigGyroRate s' = bigGyroRate s /\ maxArmingAngle s' = maxArmingAngle s.
Proof.
  induction cs as [| c cs IH]; intros s; cbv zeta.
  - repeat split.
  - change (run s (c :: cs)) with (run (step s c) cs).
    specialize (IH (step s c)). cbv zeta in IH.
    pose proof (step_gains s c) as H. cbv zeta in H.
    intuition congruence.
Qed.

(** X1.  Whatever sequence of [updateDemands] and [resetIntegral] calls a
    stabilizer has been through, the six gains and the two thresholds are
    the ones it started with, and calling [init()] again gives the
    stabilizer that [init()] gave at the start. *)
Theorem init_after_any_run_is_init (s : Stabilizer) (cs : list call) :
  init (run (init s) cs) = init s
  /\ bigGyroRate (run (init s) cs) = degreesToRadians bigGyroDegreesPerSecond
  /\ maxArmingAngle (run (init s) cs) = degreesToRadians maxArmingAngleDegrees.
Proof.
  pose proof (run_gains cs (init s)) as H. cbv zeta in H.
  destruct H as (H1 & H2 & H3 & H4 & H5 & H6 & H7 & H8).
  split; [ | split].
  - rewrite (init_depends_on_gains (init s) (run (init s) cs)) by assumption.
    apply init_depends_on_gains; reflexivity.
  - rewrite H7. reflexivity.
  - rewrite H8. reflexivity.
Qed.

(** The derivative history of a cyclic axis after one [updateDemands]. *)
Lemma updateDemands_history s state d a :
  a <> AXIS_YAW ->
  let s' := fst (updateDemands s state d) in
  get2 (lastGyro s') a = angularRate state a
  /\ get2 (delta1 s') a = angularRate state a - get2 (lastGyro s) a
  /\ get2 (delta2 s') a = get2 (delta1 s) a.
Proof.
  intros Ha. cbv zeta. rewrite updateDemands_eq. cbv beta iota zeta.
  rewrite !computeCyclicPid_eq. cbv beta iota zeta.
  unfold angularRate.
  destruct a; [ | | congruence]; cbn; repeat split.
Qed.

Lemma resetIntegral_history s :
  lastGyro (resetIntegral s) = lastGyro s
  /\ delta1 (resetIntegral s) = delta1 s /\ delta2 (resetIntegral s) = delta2 s.
Proof. repeat split. Qed.

Lemma step_history s c a :
  a <> AXIS_YAW ->
  get2 (lastGyro (step s c)) a = angularRate (call_state c) a
  /\ get2 (delta1 (step s c)) a
     = angularRate (call_state c) a - get2 (lastGyro s) a
  /\ get2 (delta2 (step s c)) a = get2 (delta1 s) a.
Proof.
  intros Ha. unfold step.
  pose proof (updateDemands_history
                (if call_reset c then resetIntegral s else s)
                (call_state c) (call_demands c) a Ha) as H.
  cbv zeta in H. destruct (call_reset c); exact H.
Qed.

(** X2.  The D term of roll and pitch is a difference over three samples:
    after any three [updateDemands] calls, the sum of deltas that the next
    call multiplies by [gyroCyclicD] is the rate of that next call minus the
    rate of the first of the three, and the correction it returns has
    exactly that D term. *)
Theorem deltaSum_spans_three_calls (s : Stabilizer) (c1 c2 c3 : call)
    (state : vehicle_state_t) (d : demands_t) (a : axis) :
  a <> AXIS_YAW ->
  let s3 := run s [c1; c2; c3] in
  let gyr := map3 deriv (orientation (pose state)) in
  deltaSum s3 state a == angularRate state a - angularRate (call_state c1) a
  /\ demand_of (snd (updateDemands s3 state d)) a
     = computePid (_gyroCyclicP s3)
         (Filter.complementary (demand_of d a)
            ((demand_of d a - eulerAngle state a) * _levelP s3) (cyclic_prop d))
         (integral_after s3 (_gyroCyclicP s3) (demand_of d a) gyr a
          * _gyroCyclicI s3 * cyclic_prop d)
         (deltaSum s3 state a * _gyroCyclicD s3) gyr a.
Proof.
  intros Ha s3 gyr. split.
  - unfold s3, deltaSum. cbn [run fold_left].
    destruct (step_history (step (step s c1) c2) c3 a Ha) as (L3 & D13 & D23).
    destruct (step_history (step s c1) c2 a Ha) as (L2 & D12 & _).
    destruct (step_history s c1 a Ha) as (L1 & _ & _).
    rewrite L3, D13, D23, L2, D12, L1. ring.
  - apply updateDemands_cyclic, Ha.
Qed.

Lemma deltaSum_witness :
  deltaSum (run unit_gains [turning 1 0 0; turning 2 0 0; turning 4 0 0])
    (vehicle (mkArray3 0 0 0) (mkArray3 7 0 0)) AXIS_ROLL == 6.
Proof.
  destruct (deltaSum_spans_three_calls unit_gains (turning 1 0 0)
              (turning 2 0 0) (turning 4 0 0)
              (vehicle (mkArray3 0 0 0) (mkArray3 7 0 0)) sticks_centered
              AXIS_ROLL) as [H _].
  - discriminate.
  - rewrite H. reflexivity.
Defined.

(** X3.  The yaw demand [updateDemands] returns depends on the yaw stick,
    the yaw rate, the yaw integrator cell and the two yaw gains alone.  The
    call leaves in [errorGyroI[AXIS_YAW]] zero when the yaw rate exceeds
    [bigGyroRate] or the yaw stick exceeds [bigYawDemand] in magnitude, and
    otherwise the old cell plus (stick times [gyroYawP] minus rate), clamped
    to plus or minus [gyroWindupMax]; the returned yaw is the stick, minus
    the rate times [gyroYawP], plus that integral times [gyroYawI], the
    closing clamp changing nothing.  Hence two calls on the same stabilizer
    that agree on the yaw stick and the yaw rate return the same yaw and
    leave the same yaw integral, whatever the Euler angles, the roll and
    pitch rates and the other sticks. *)
Theorem corrected_yaw_closed_form (s : Stabilizer) (state : vehicle_state_t)
    (d : demands_t) :
  let r := updateDemands s state d in
  let rate := angularRate state AXIS_YAW in
  let integral :=
    if (Qabs rate >? bigGyroRate s) || (Qabs (yaw d) >? bigYawDemand) then 0
    else Filter.constrainAbs
           (get3 (errorGyroI s) AXIS_YAW + (yaw d * _gyroYawP s - rate))
           gyroWindupMax in
  get3 (errorGyroI (fst r)) AXIS_YAW = integral
  /\ yaw (snd r) == yaw d - rate * _gyroYawP s + integral * _gyroYawI s
  /\ (forall (state' : vehicle_state_t) (d' : demands_t),
        angularRate state' AXIS_YAW = rate -> yaw d' = yaw d ->
        yaw (snd (updateDemands s state' d')) = yaw (snd r)
        /\ get3 (errorGyroI (fst (updateDemands s state' d'))) AXIS_YAW
           = get3 (errorGyroI (fst r)) AXIS_YAW).
Proof.
  cbv zeta.
  assert (Hi : forall st dd,
             get3 (errorGyroI (fst (updateDemands s st dd))) AXIS_YAW
             = if (Qabs (angularRate st AXIS_YAW) >? bigGyroRate s)
                  || (Qabs (yaw dd) >? bigYawDemand) then 0
               else Filter.constrainAbs
                      (get3 (errorGyroI s) AXIS_YAW
                       + (yaw dd * _gyroYawP s - angularRate st AXIS_YAW))
                      gyroWindupMax).
  { intros st dd. rewrite updateDemands_errorGyroI.
    unfold integral_after, resets. cbn [axis_eqb andb demand_of].
    rewrite get3_map3. reflexivity. }
  assert (Hy : forall st dd,
             yaw (snd (updateDemands s st dd))
             = yaw dd - angularRate st AXIS_YAW * _gyroYawP s
               + get3 (errorGyroI (fst (updateDemands s st dd))) AXIS_YAW
                 * _gyroYawI s - 0).
  { intros st dd. rewrite updateDemands_yaw, updateDemands_errorGyroI.
    unfold yaw_pid, computePid. cbn [axis_eqb demand_of].
    rewrite get3_map3. reflexivity. }
  split; [apply Hi | split].
  - rewrite Hy, Hi. ring.
  - intros state' d' Hrate Hyaw.
    assert (He : get3 (errorGyroI (fst (updateDemands s state' d'))) AXIS_YAW
                 = get3 (errorGyroI (fst (updateDemands s state d))) AXIS_YAW)
      by (rewrite !Hi, Hrate, Hyaw; reflexivity).
    split; [ | exact He].
    rewrite !Hy, He, Hrate, Hyaw. reflexivity.
Qed.

Lemma corrected_yaw_witness :
  yaw (snd (updateDemands unit_gains
              (vehicle (mkArray3 1 (1 # 2) 0) (mkArray3 (3 # 10) (1 # 5) 1))
              (mkDemands (7 # 10) (1 # 2) (1 # 5) 0)))
  = yaw (snd (updateDemands unit_gains yawing sticks_centered)).
Proof.
  pose proof (corrected_yaw_closed_form unit_gains yawing sticks_centered)
    as W.
  cbv zeta in W. destruct W as (_ & _ & W).
  exact (proj1 (W (vehicle (mkArray3 1 (1 # 2) 0)
                     (mkArray3 (3 # 10) (1 # 5) 1))
                  (mkDemands (7 # 10) (1 # 2) (1 # 5) 0) eq_refl eq_refl)).
Defined.






Lemma quiescent_init s : quiescent (init s).
Proof.
  repeat split; intros a; destruct a; reflexivity.
Qed.

Lemma quiescent_resetIntegral s : quiescent s -> quiescent (resetIntegral s).
Proof.
  intros (Hi & Hl & H1 & H2). repeat split; try assumption.
  intros a. rewrite resetIntegral_errorGyroI. reflexivity.
Qed.

Lemma quiescent_step s c : quiescent s -> at_rest c -> quiescent (step s c).
Proof.
  intros Hq (Hrate & _ & Hdem).
  assert (Hq' : quiescent (if call_reset c then resetIntegral s else s))
    by (destruct (call_reset c); [apply quiescent_resetIntegral | ]; exact Hq).
  unfold step. set (s1 := if call_reset c then resetIntegral s else s) in *.
  destruct Hq' as (Hi & Hl & H1 & H2).
  assert (Hroll : AXIS_ROLL <> AXIS_YAW) by discriminate.
  assert (Hpitch : AXIS_PITCH <> AXIS_YAW) by discriminate.
  destruct (updateDemands_history s1 (call_state c) (call_demands c) _ Hroll)
    as (Lr & D1r & D2r).
  destruct (updateDemands_history s1 (call_state c) (call_demands c) _ Hpitch)
    as (Lp & D1p & D2p).
  split; [ | split; [ | split]]; intros a.
  - rewrite updateDemands_errorGyroI.
    apply integral_after_zero; [apply Hi | apply Hdem | ].
    rewrite get3_map3. apply Hrate.
  - destruct a; [rewrite Lr | rewrite Lp | reflexivity]; apply Hrate.
  - destruct a; [rewrite D1r | rewrite D1p | reflexivity];
      rewrite Hrate, Hl; ring.
  - destruct a; [rewrite D2r | rewrite D2p | reflexivity]; apply H1.
Qed.

Lemma quiescent_run cs :
  forall s, quiescent s -> Forall at_rest cs -> quiescent (run s cs).
Proof.
  induction cs as [| c cs IH]; intros s Hq Hall; [exact Hq | ].
  change (run s (c :: cs)) with (run (step s c) cs).
  apply IH; [ | exact (Forall_inv_tail Hall)].
  apply quiescent_step; [exact Hq | exact (Forall_inv Hall)].
Qed.

Lemma output_at_rest s c :
  quiescent s -> at_rest c ->
  forall a, demand_of (output s c) a == 0.
Proof.
  intros Hq (Hrate & Hang & Hdem).
  assert (Hq' : quiescent (if call_reset c then resetIntegral s else s))
    by (destruct (call_reset c); [apply quiescent_resetIntegral | ]; exact Hq).
  unfold output. set (s1 := if call_reset c then resetIntegral s else s) in *.
  destruct Hq' as (Hi & Hl & H1 & H2).
  assert (Hcyc : forall a, a <> AXIS_YAW ->
            demand_of (snd (updateDemands s1 (call_state c) (call_demands c))) a
            == 0).
  { intros a Ha. rewrite (updateDemands_cyclic _ _ _ a Ha).
    unfold computePid, Filter.complementary.
    set (i := integral_after _ _ _ _ _). clearbody i.
    rewrite get3_map3. fold (angularRate (call_state c) a).
    rewrite (cyclic_prop_zero _ (Hdem AXIS_ROLL) (Hdem AXIS_PITCH)).
    rewrite (Hrate a), (Hdem a), (Hang a), (Hl a), (H1 a), (H2 a). ring. }
  intros a. destruct a; [apply Hcyc; discriminate | apply Hcyc; discriminate | ].
  cbn [demand_of]. rewrite updateDemands_yaw. unfold yaw_pid, computePid.
  rewrite integral_after_zero.
  - rewrite get3_map3. fold (angularRate (call_state c) AXIS_YAW).
    rewrite (Hrate AXIS_YAW), (Hdem AXIS_YAW). ring.
  - apply Hi.
  - apply (Hdem AXIS_YAW).
  - rewrite get3_map3. apply (Hrate AXIS_YAW).
Qed.

(** X5.  A vehicle that stays level and still with centred sticks keeps the
    stabilizer at rest: from [init()], after any number of such
    [updateDemands] calls the integrators and the derivative history are all
    zero, and every such call returns zero roll, pitch and yaw demands and
    the throttle it was given. *)
Theorem stabilizer_stays_at_rest (s0 : Stabilizer) (cs : list call) (c : call) :
  Forall at_rest cs -> at_rest c ->
  let s := run (init s0) cs in
  quiescent s
  /\ (forall a, demand_of (output s c) a == 0)
  /\ throttle (output s c) = throttle (call_demands c).
Proof.
  intros Hall Hc s.
  assert (Hq : quiescent s)
    by (apply quiescent_run; [apply quiescent_init | exact Hall]).
  split; [exact Hq | split].
  - apply output_at_rest; assumption.
  - unfold output. rewrite updateDemands_eq. reflexivity.
Qed.

Lemma stabilizer_stays_at_rest_witness :
  quiescent (run unit_gains [hover 0.5; hover 0.6])
  /\ throttle (output (run unit_gains [hover 0.5; hover 0.6]) (hover 0.7)) = 0.7.
Proof.
  assert (R : forall t, at_rest (hover t))
    by (intros t; repeat split; intros a; destruct a; reflexivity).
  destruct (stabilizer_stays_at_rest
              (mkStabilizer 1 1 1 1 1 1 (mkArray2 0 0) (mkArray2 0 0)
                 (mkArray2 0 0) (mkArray3 0 0 0) 0 0)
              [hover 0.5; hover 0.6] (hover 0.7)) as (H1 & _ & H3).
  - repeat constructor; apply R.
  - apply R.
  - split; [exact H1 | exact H3].
Defined.

End StabilizerExtras.

(** ** More on [Hackflight::checkReceiver] *)

Section CheckReceiverExtras.

Import HackflightMore.

(** X6.  An armed state is disarmed by a call of [checkReceiver] in exactly
    two cases: the receiver reports a lost signal, or it delivers new data
    with the aux1 switch de-asserted.  Neither the throttle position nor the
    roll and pitch angles ever disarm. *)
Theorem disarms_iff_lost_signal_or_switch_released (rx : Receiver)
    (h : Hackflight) :
  armed (_state h) = true ->
  (armed (_state (object_after (checkReceiver rx h))) = false
   <-> lostSignal rx = true
       \/ (getDemands rx (yawOffset h) = true /\ getAux1State rx = false)).
Proof.
  intros Ha. rewrite object_after_checkReceiver, Ha, andb_true_r.
  destruct (lostSignal rx).
  - cbn. tauto.
  - destruct (getDemands rx (yawOffset h)); cbn [negb].
    + unfold after_data, arm_gesture; cbn [_state armed]. rewrite Ha.
      cbn [negb]. rewrite !andb_false_r. cbn [andb].
      destruct (getAux1State rx); intuition congruence.
    + rewrite Ha. intuition congruence.
Qed.

Lemma disarms_witness :
  armed (_state (object_after (checkReceiver release_in_flight flying))) = false.
Proof.
  apply (disarms_iff_lost_signal_or_switch_released release_in_flight flying).
  - reflexivity.
  - right. split; reflexivity.
Defined.

(** X7.  A call of [checkReceiver] sets the failsafe flag exactly when the
    receiver reports a lost signal while the state is armed; a lost signal
    while disarmed leaves the flag clear. *)
Theorem failsafe_set_iff_lost_signal_while_armed (rx : Receiver)
    (h : Hackflight) :
  failsafe (_state h) = false ->
  (failsafe (_state (object_after (checkReceiver rx h))) = true
   <-> lostSignal rx = true /\ armed (_state h) = true).
Proof.
  intros Hf. rewrite object_after_checkReceiver.
  destruct (lostSignal rx), (armed (_state h)); cbn [andb];
    try (cbn; intuition congruence);
    destruct (negb _); cbn; rewrite ?Hf; intuition congruence.
Qed.

Lemma failsafe_set_witness :
  failsafe (_state (object_after (checkReceiver (cycle_rx link_lost) flying)))
  = true.
Proof.
  apply (failsafe_set_iff_lost_signal_while_armed (cycle_rx link_lost) flying).
  - reflexivity.
  - split; reflexivity.
Defined.

(** X8.  Whenever [checkReceiver] calls [showArmedStatus], the value it
    shows is the armed flag the call returns with, and it is the last call
    made; the indicator is refreshed on every call except the one that
    returns for lack of receiver data. *)
Theorem showArmedStatus_reports_final_state (rx : Receiver) (h : Hackflight) :
  let r := checkReceiver rx h in
  (forall b, In (ShowArmedStatus b) (calls_of r) ->
             b = armed (_state (object_after r)))
  /\ (lostSignal rx && armed (_state h) = true
      \/ getDemands rx (yawOffset h) = true ->
      exists before,
        calls_of r = before ++ [ShowArmedStatus (armed (_state (object_after r)))])
  /\ (lostSignal rx && armed (_state h) = false ->
      getDemands rx (yawOffset h) = false ->
      calls_of r = [ReceiverGetDemands (yawOffset h)] /\ object_after r = h).
Proof.
  cbv zeta. rewrite checkReceiver_eq.
  destruct (lostSignal rx && armed (_state h)).
  - cbn [calls_of object_after fst snd]. repeat split.
    + intros b [H | [H | []]]; [discriminate | ]. now injection H as <-.
    + intros _. exists [ActuatorCut]. reflexivity.
    + discriminate.
    + discriminate.
  - destruct (getDemands rx (yawOffset h)); cbn [negb].
    + cbv zeta. cbn [calls_of object_after fst snd]. repeat split.
      * intros b [H | H]; [discriminate | ].
        apply in_app_or in H. destruct H as [H | [H | []]].
        -- destruct (_ && _); [destruct H as [H | []]; discriminate | destruct H].
        -- now injection H as <-.
      * intros _. eexists (_ :: _). cbn [app]. reflexivity.
      * discriminate.
      * discriminate.
    + cbn [calls_of object_after fst snd]. repeat split.
      * intros b [H | []]. discriminate.
      * intros [H | H]; discriminate.
Qed.

Lemma showArmedStatus_witness :
  exists before,
    calls_of (checkReceiver (cycle_rx gesture) ready_to_arm)
    = before ++ [ShowArmedStatus true].
Proof.
  destruct (showArmedStatus_reports_final_state (cycle_rx gesture) ready_to_arm)
    as (_ & H & _).
  apply H. right. reflexivity.
Defined.

(** X9.  The yaw reference [_yawInitial] is written only by the arm
    transition: a call that arms leaves the yaw offset (current yaw minus
    reference) at zero, and every other call leaves the reference as it
    was. *)
Theorem yawInitial_written_only_on_arming (rx : Receiver) (h : Hackflight) :
  let h' := object_after (checkReceiver rx h) in
  (arms rx h -> yawOffset h' == 0)
  /\ (~ arms rx h -> _yawInitial h' = _yawInitial h).
Proof.
  cbv zeta. split.
  - intros H. pose proof H as [Ea _]. apply arms_iff in H. destruct H as [Hd Hg].
    rewrite object_after_checkReceiver, Ea, andb_false_r, Hd. cbn [negb].
    unfold yawOffset, after_data; cbn [_yawInitial _state rotation].
    rewrite Hg. ring.
  - intros H. rewrite arms_iff in H. rewrite object_after_checkReceiver.
    destruct (_ && _); [reflexivity | ].
    destruct (getDemands rx (yawOffset h)); cbn [negb]; [ | reflexivity].
    unfold after_data; cbn [_yawInitial].
    destruct (arm_gesture h rx); [ | reflexivity].
    exfalso. apply H. split; reflexivity.
Qed.

Lemma yawInitial_witness :
  yawOffset
    (object_after
       (checkReceiver (cycle_rx gesture) (sense ready_to_arm (mkArray3 0 0 3))))
  == 0.
Proof.
  apply (yawInitial_written_only_on_arming (cycle_rx gesture)
           (sense ready_to_arm (mkArray3 0 0 3))).
  apply arms_iff. split; reflexivity.
Defined.

Lemma silent_step (h : Hackflight) (c : cycle) :
  silent c -> cycle_step h c = sense h (cycle_rotation c).
Proof.
  intros [Hl Hd]. rewrite cycle_step_eq. cbv zeta.
  unfold reads_aux1. rewrite Hl, Hd. cbn [andb negb]. reflexivity.
Qed.

(** X10.  While the receiver delivers no new data and reports no lost
    signal, calls of [checkReceiver] change nothing of the arming state:
    over any number of such calls, with nothing but the Euler angles of the
    vehicle state rewritten between them, the armed and failsafe flags, the
    latch and the yaw reference stay as they were.  In particular an armed
    vehicle stays armed.  The statement is about [checkReceiver] alone, not
    about what a sensor's [modifyState] may write during [update]. *)
Theorem silent_receiver_freezes_arming_state (h : Hackflight) (cs : list cycle) :
  Forall silent cs ->
  let h' := run h cs in
  armed (_state h') = armed (_state h)
  /\ failsafe (_state h') = failsafe (_state h)
  /\ _safeToArm h' = _safeToArm h
  /\ _yawInitial h' = _yawInitial h.
Proof.
  cbv zeta. revert h. induction cs as [| c cs IH]; intros h Hall.
  - repeat split.
  - rewrite run_cons, (silent_step h c (Forall_inv Hall)).
    destruct (IH (sense h (cycle_rotation c)) (Forall_inv_tail Hall))
      as (H1 & H2 & H3 & H4).
    rewrite H1, H2, H3, H4. repeat split.
Qed.

Lemma silent_receiver_witness :
  armed (_state (run flying [silence; silence; silence])) = true.
Proof.
  assert (S : silent silence) by (split; [reflexivity | intros y; reflexivity]).
  destruct (silent_receiver_freezes_arming_state flying
              [silence; silence; silence]) as (H & _).
  - repeat constructor; exact S.
  - rewrite H. reflexivity.
Defined.

End CheckReceiverExtras.

(** ** More on the sensor table and the tick *)

Section SensorExtras.

Import HackflightMore.

Lemma bind_this {B} (k : Hackflight -> Cmd B) (h : Hackflight) :
  bind this k h = k h h.
Proof.
  unfold bind, this. destruct (k h h) as [[b h2] t2]. reflexivity.
Qed.

Lemma bind_step {A B} (c : Cmd A) (k : A -> Cmd B) (h h1 : Hackflight)
    (a : A) (t1 : list event) :
  c h = (a, h1, t1) ->
  bind c k h = (fst (fst (k a h1)), object_after (k a h1), t1 ++ calls_of (k a h1)).
Proof.
  intros E. unfold bind, object_after, calls_of. rewrite E.
  destruct (k a h1) as [[b h2] t2]. reflexivity.
Qed.

Lemma poll_eq (r : sensor_ref) (sensor : Sensor) (time : Q) (h : Hackflight) :
  poll r sensor time h
  = (tt, with_state h (polled sensor time (_state h)), poll_trace r sensor time).
Proof.
  unfold poll, polled, poll_trace.
  destruct h as [sens cnt sta yi gy qu st up].
  destruct (ready sensor time); reflexivity.
Qed.

Lemma checkOptionalSensor_eq (board : Board) (n k : nat) (h : Hackflight) :
  checkOptionalSensor board n k h
  = match _sensors h k with
    | Some sensor => poll (Sensors k) sensor (getTime board (n + k)) h
    | None => (tt, h, [])
    end.
Proof.
  unfold checkOptionalSensor. rewrite bind_this.
  destruct (_sensors h k); reflexivity.
Qed.

(** *** The sensor table *)

Lemma addSensors_cons (s : Sensor) (ss : list Sensor) (h : Hackflight) :
  addSensors (s :: ss) h = addSensors ss (add_sensor s h).
Proof. reflexivity. Qed.

Lemma add_sensor_count_lt (s : Sensor) (h : Hackflight) :
  (_sensor_count (add_sensor s h) < 256)%nat.
Proof. cbn [add_sensor with_sensors _sensor_count]. apply Nat.mod_upper_bound. discriminate. Qed.

Lemma add_sensor_count_succ (s : Sensor) (h : Hackflight) :
  (_sensor_count h + 1 < 256)%nat ->
  _sensor_count (add_sensor s h) = (_sensor_count h + 1)%nat.
Proof.
  intros H. cbn [add_sensor with_sensors _sensor_count].
  apply Nat.mod_small, H.
Qed.

Lemma addSensors_count (ss : list Sensor) :
  forall h,
    (_sensor_count h < 256)%nat ->
    _sensor_count (addSensors ss h)
    = Nat.modulo (_sensor_count h + length ss) 256.
Proof.
  induction ss as [| s ss IH]; intros h Hh.
  - cbn [addSensors fold_left length]. rewrite Nat.add_0_r.
    symmetry. apply Nat.mod_small, Hh.
  - rewrite addSensors_cons, IH by apply add_sensor_count_lt.
    cbn [add_sensor with_sensors _sensor_count length].
    rewrite Nat.Div0.add_mod_idemp_l. f_equal. lia.
Qed.

Lemma addSensors_keeps_cells_below (ss : list Sensor) :
  forall h k,
    (_sensor_count h + length ss <= 256)%nat -> (k < _sensor_count h)%nat ->
    _sensors (addSensors ss h) k = _sensors h k.
Proof.
  induction ss as [| s ss IH]; intros h k Hlen Hk; [reflexivity | ].
  rewrite addSensors_cons. cbn [length] in Hlen.
  assert (Hcell : _sensors (add_sensor s h) k = _sensors h k).
  { cbn [add_sensor with_sensors _sensors].
    destruct (Nat.eqb_spec k (_sensor_count h)); [lia | reflexivity]. }
  destruct ss as [| s' ss].
  - exact Hcell.
  - cbn [length] in Hlen.
    rewrite IH; [exact Hcell | | ];
      rewrite add_sensor_count_succ by lia; cbn [length]; lia.
Qed.

Lemma addSensors_lookup (ss : list Sensor) :
  forall h i s,
    (_sensor_count h + length ss <= 256)%nat ->
    nth_error ss i = Some s ->
    _sensors (addSensors ss h) (_sensor_count h + i) = Some s.
Proof.
  induction ss as [| s0 ss IH]; intros h i s Hlen Hi.
  - destruct i; discriminate.
  - rewrite addSensors_cons. cbn [length] in Hlen.
    assert (Hcell : _sensors (add_sensor s0 h) (_sensor_count h) = Some s0).
    { cbn [add_sensor with_sensors _sensors]. now rewrite Nat.eqb_refl. }
    destruct i as [| i]; cbn [nth_error] in Hi.
    + injection Hi as <-. rewrite Nat.add_0_r.
      destruct ss as [| s' ss]; [exact Hcell | ].
      cbn [length] in Hlen.
      rewrite addSensors_keeps_cells_below; [exact Hcell | | ];
        rewrite add_sensor_count_succ by lia; cbn [length]; lia.
    + destruct ss as [| s' ss]; [destruct i; discriminate | ].
      cbn [length] in Hlen.
      replace (_sensor_count h + S i)%nat
        with (_sensor_count (add_sensor s0 h) + i)%nat
        by (rewrite add_sensor_count_succ by lia; lia).
      apply IH; [ | exact Hi].
      rewrite add_sensor_count_succ by lia. cbn [length]. lia.
Qed.

(** X11.  After [init] and up to 254 further [addSensor] calls, the sensor
    table holds the quaternion in cell 0, the gyrometer in cell 1 and the
    added sensors after them in the order they were added; the count is the
    number of registrations modulo 256. *)
Theorem sensors_registered_in_order (a : bool) (g q : Sensor)
    (garbage : state_t) (ss : list Sensor) :
  (2 + length ss <= 256)%nat ->
  let h := addSensors ss (init a (construct g q garbage)) in
  _sensors h 0%nat = Some q /\ _sensors h 1%nat = Some g
  /\ (forall i s, nth_error ss i = Some s -> _sensors h (2 + i)%nat = Some s)
  /\ _sensor_count h = Nat.modulo (2 + length ss) 256.
Proof.
  intros Hlen h. unfold h.
  set (h0 := init a (construct g q garbage)).
  assert (Hc : _sensor_count h0 = 2%nat) by reflexivity.
  repeat split.
  - rewrite addSensors_keeps_cells_below; [reflexivity | | ]; rewrite Hc; lia.
  - rewrite addSensors_keeps_cells_below; [reflexivity | | ]; rewrite Hc; lia.
  - intros i s Hi. rewrite <- Hc. apply addSensors_lookup; [rewrite Hc; lia | exact Hi].
  - rewrite addSensors_count, Hc; [reflexivity | rewrite Hc; lia].
Qed.

Lemma sensors_registered_witness :
  _sensors
    (addSensors [tilting_sensor; idle_sensor] (boot idle_sensor idle_sensor))
    2%nat = Some tilting_sensor.
Proof.
  destruct (sensors_registered_in_order false idle_sensor idle_sensor
              (mkState true true (mkArray3 7 7 7)) [tilting_sensor; idle_sensor])
    as (_ & _ & H & _).
  - cbn. lia.
  - exact (H 0%nat tilting_sensor eq_refl).
Defined.

(** X12.  The count of registered sensors is a [uint8_t]: the 256th
    registration ([init]'s two and 254 [addSensor] calls) wraps it to 0, and
    from then on the optional-sensor stage of a tick polls no sensor at
    all. *)
Theorem sensor_count_wraps_at_256 (a : bool) (g q : Sensor)
    (garbage : state_t) (ss : list Sensor) (board : Board) (n : nat) :
  length ss = 254%nat ->
  let h := addSensors ss (init a (construct g q garbage)) in
  _sensor_count h = 0%nat
  /\ checkOptionalSensors board n h = (tt, h, []).
Proof.
  intros Hlen h.
  assert (Hc : _sensor_count h = 0%nat).
  { unfold h. rewrite addSensors_count by (cbn; lia).
    change (_sensor_count (init a (construct g q garbage))) with 2%nat.
    rewrite Hlen. reflexivity. }
  split; [exact Hc | ].
  unfold checkOptionalSensors. rewrite bind_this, Hc. reflexivity.
Qed.

Lemma sensor_count_wraps_witness :
  _sensor_count
    (addSensors (repeat tilting_sensor 254) (boot idle_sensor idle_sensor))
  = 0%nat.
Proof.
  destruct (sensor_count_wraps_at_256 false idle_sensor idle_sensor
              (mkState true true (mkArray3 7 7 7)) (repeat tilting_sensor 254)
              wall_clock 2) as [H _].
  - apply repeat_length.
  - exact H.
Defined.

End SensorExtras.

(** ** More on the tick *)

Section TickExtras.

Import HackflightMore.

Lemma checkGyrometer_eq (board : Board) (n : nat) (h : Hackflight) :
  checkGyrometer board n h
  = (tt, with_state h (polled (_gyrometer h) (getTime board n) (_state h)),
     poll_trace TheGyrometer (_gyrometer h) (getTime board n)).
Proof. unfold checkGyrometer. rewrite bind_this. apply poll_eq. Qed.

Lemma checkQuaternion_eq (board : Board) (n : nat) (h : Hackflight) :
  checkQuaternion board n h
  = (tt, with_state h (polled (_quaternion h) (getTime board n) (_state h)),
     poll_trace TheQuaternion (_quaternion h) (getTime board n)).
Proof. unfold checkQuaternion. rewrite bind_this. apply poll_eq. Qed.

Lemma serialTask_eq (h : Hackflight) :
  _serialTask_update h = (tt, h, [SerialTaskUpdate (_state h)]).
Proof. reflexivity. Qed.

(** X13.  [init] registers the quaternion and the gyrometer in the sensor
    table as well, so a tick of the full variant polls each of them twice:
    gyrometer, quaternion, then cell 0 (the quaternion again) and cell 1
    (the gyrometer again), each time calling [modifyState] when [ready]
    answers true; the serial task then sees the state after all four. *)
Theorem mandatory_sensors_polled_twice (a : bool) (g q : Sensor)
    (garbage : state_t) (board : Board) :
  let h := init a (construct g q garbage) in
  let t := getTime board in
  let st := polled g (t 3%nat)
              (polled q (t 2%nat) (polled q (t 1%nat) (polled g (t 0%nat) (_state h)))) in
  updateFull board h
  = (tt, with_state h st,
     poll_trace TheGyrometer g (t 0%nat)
     ++ poll_trace TheQuaternion q (t 1%nat)
     ++ poll_trace (Sensors 0) q (t 2%nat)
     ++ poll_trace (Sensors 1) g (t 3%nat)
     ++ [SerialTaskUpdate st]).
Proof.
  cbv zeta. set (h := init a (construct g q garbage)).
  unfold updateFull.
  rewrite (bind_step _ _ _ _ _ _ (checkGyrometer_eq board 0 h)).
  set (h1 := with_state h _).
  rewrite (bind_step _ _ _ _ _ _ (checkQuaternion_eq board 1 h1)).
  set (h2 := with_state h1 _).
  assert (E : checkOptionalSensors board 2 h2
              = (tt,
                 with_state h2
                   (polled g (getTime board 3)
                      (polled q (getTime board 2) (_state h2))),
                 poll_trace (Sensors 0) q (getTime board 2)
                 ++ poll_trace (Sensors 1) g (getTime board 3))).
  { unfold checkOptionalSensors. rewrite bind_this.
    change (_sensor_count h2) with 2%nat. cbn [seq for_each].
    rewrite (bind_step _ _ _ _ _ _
               (eq_trans (checkOptionalSensor_eq board 2 0 h2)
                         (poll_eq (Sensors 0) q (getTime board 2) h2))).
    set (h3 := with_state h2 _).
    rewrite (bind_step _ _ _ _ _ _
               (eq_trans (checkOptionalSensor_eq board 2 1 h3)
                         (poll_eq (Sensors 1) g (getTime board 3) h3))).
    cbn [ret fst snd object_after calls_of]. rewrite app_nil_r. reflexivity. }
  rewrite (bind_step _ _ _ _ _ _ E).
  rewrite serialTask_eq. cbn [fst snd object_after calls_of].
  rewrite <- !app_assoc. reflexivity.
Qed.

Lemma poll_not_ready (r : sensor_ref) (sensor : Sensor) (time : Q)
    (h : Hackflight) :
  ready sensor time = false -> poll r sensor time h = (tt, h, [SensorReady r time]).
Proof.
  intros E. rewrite poll_eq. unfold polled, poll_trace. rewrite E.
  destruct h as [sens cnt sta yi gy qu st up]. reflexivity.
Qed.

Lemma for_each_not_ready (board : Board) (n : nat) (h : Hackflight)
    (ks : list nat) :
  (forall k sensor, In k ks -> _sensors h k = Some sensor ->
                    ready sensor (getTime board (n + k)) = false) ->
  exists t,
    for_each ks (checkOptionalSensor board n) h = (tt, h, t)
    /\ existsb is_modify t = false.
Proof.
  induction ks as [| k ks IH]; intros Hno; cbn [for_each].
  - exists []. split; reflexivity.
  - destruct IH as (t & Et & Ht).
    { intros k' s Hin. apply Hno. right. exact Hin. }
    assert (E : exists t0, checkOptionalSensor board n k h = (tt, h, t0)
                           /\ existsb is_modify t0 = false).
    { rewrite checkOptionalSensor_eq.
      destruct (_sensors h k) as [sensor | ] eqn:Ek.
      - exists [SensorReady (Sensors k) (getTime board (n + k))].
        split; [ | reflexivity].
        apply poll_not_ready, (Hno k sensor); [left; reflexivity | exact Ek].
      - exists []. split; reflexivity. }
    destruct E as (t0 & E0 & H0).
    exists (t0 ++ t). split.
    + rewrite (bind_step _ _ _ _ _ _ E0), Et. reflexivity.
    + rewrite existsb_app, H0, Ht. reflexivity.
Qed.

(** X14.  A sensor that is not ready is left alone: when neither the
    gyrometer, nor the quaternion, nor any registered sensor answers ready
    at the time it is asked, a tick's [updateFull] makes no [modifyState]
    call and leaves the object as it found it. *)
Theorem sensors_not_ready_leave_state (board : Board) (h : Hackflight) :
  ready (_gyrometer h) (getTime board 0) = false ->
  ready (_quaternion h) (getTime board 1) = false ->
  (forall k sensor, (k < _sensor_count h)%nat -> _sensors h k = Some sensor ->
                    ready sensor (getTime board (2 + k)) = false) ->
  object_after (updateFull board h) = h
  /\ existsb is_modify (calls_of (updateFull board h)) = false.
Proof.
  intros Hg Hq Hs.
  assert (Eg : checkGyrometer board 0 h
               = (tt, h, [SensorReady TheGyrometer (getTime board 0)])).
  { unfold checkGyrometer. rewrite bind_this. apply poll_not_ready, Hg. }
  assert (Eq : checkQuaternion board 1 h
               = (tt, h, [SensorReady TheQuaternion (getTime board 1)])).
  { unfold checkQuaternion. rewrite bind_this. apply poll_not_ready, Hq. }
  destruct (for_each_not_ready board 2 h (seq 0 (_sensor_count h)))
    as (t & Et & Ht).
  { intros k s Hin. apply Hs. apply in_seq in Hin. lia. }
  assert (Eo : checkOptionalSensors board 2 h = (tt, h, t)).
  { unfold checkOptionalSensors. rewrite bind_this. exact Et. }
  unfold updateFull.
  rewrite (bind_step _ _ _ _ _ _ Eg), (bind_step _ _ _ _ _ _ Eq),
    (bind_step _ _ _ _ _ _ Eo), serialTask_eq.
  cbn [fst snd object_after calls_of app existsb is_modify orb].
  split; [reflexivity | ].
  rewrite existsb_app, Ht. reflexivity.
Qed.

Lemma sensors_not_ready_witness :
  object_after (updateFull wall_clock (boot idle_sensor idle_sensor))
  = boot idle_sensor idle_sensor.
Proof.
  apply (sensors_not_ready_leave_state wall_clock (boot idle_sensor idle_sensor)).
  - reflexivity.
  - reflexivity.
  - intros k sensor Hk.
    destruct k as [| [| k]]; [ | | cbn in Hk; lia];
      intros E; injection E as <-; reflexivity.
Defined.

Lemma checkReceiver_updater (rx : Receiver) (h : Hackflight) :
  _updater (object_after (checkReceiver rx h)) = _updater h.
Proof.
  rewrite object_after_checkReceiver.
  destruct (_ && _); [reflexivity | ]. destruct (negb _); reflexivity.
Qed.

(** X15.  A tick of the lite variant polls no sensor: after the calls of
    [checkReceiver] and the PID task it asks the proxy to send the disarmed
    channel values exactly when the state [checkReceiver] left is disarmed,
    then runs the serial task; the object it returns is the one
    [checkReceiver] left. *)
Theorem lite_tick (rx : Receiver) (board : Board) (h : Hackflight) :
  _updater h = Some UpdateLite ->
  let h1 := object_after (checkReceiver rx h) in
  update rx board h
  = (tt, h1,
     calls_of (checkReceiver rx h)
     ++ PidTaskUpdate (_state h1)
        :: (if armed (_state h1) then [] else [ProxySendDisarmed])
        ++ [SerialTaskUpdate (_state h1)]).
Proof.
  intros Hu h1.
  assert (Hu1 : _updater h1 = Some UpdateLite)
    by (unfold h1; rewrite checkReceiver_updater; exact Hu).
  assert (E : checkReceiver rx h = (tt, h1, calls_of (checkReceiver rx h))).
  { unfold h1, object_after, calls_of.
    destruct (checkReceiver rx h) as [[[] h'] t']. reflexivity. }
  unfold update. rewrite (bind_step _ _ _ _ _ _ E).
  assert (El : updateLite h1
               = (tt, h1,
                  (if armed (_state h1) then [] else [ProxySendDisarmed])
                  ++ [SerialTaskUpdate (_state h1)])).
  { unfold updateLite. rewrite bind_this.
    destruct (armed (_state h1)); reflexivity. }
  assert (Ep : _pidTask_update h1 = (tt, h1, [PidTaskUpdate (_state h1)]))
    by reflexivity.
  rewrite (bind_step _ _ _ _ _ _ Ep).
  unfold _updater_update. rewrite bind_this, Hu1, El.
  reflexivity.
Qed.

Lemma lite_tick_witness :
  calls_of (update (cycle_rx gesture) wall_clock lite_boot)
  = [ReceiverGetDemands 0; ShowArmedStatus false;
     PidTaskUpdate (mkState false false (mkArray3 0 0 0)); ProxySendDisarmed;
     SerialTaskUpdate (mkState false false (mkArray3 0 0 0))].
Proof.
  rewrite (lite_tick (cycle_rx gesture) wall_clock lite_boot eq_refl).
  reflexivity.
Defined.

End TickExtras.

(** ** [SoftwareQuaternionBoard::getQuaternion] *)

Section QuaternionCadence.

Import SoftwareQuaternionBoard.

Variable F : Type.
Variable upd : F -> Q -> Q -> Q -> Q -> Q -> Q -> Q -> F.
Variables q1 q2 q3 q4 : F -> Q.


Lemma next_count_small (c : Z) :
  uint8 ((c + 1) mod QUATERNION_DIVISOR) = ((c + 1) mod 5)%Z.
Proof.
  unfold uint8, QUATERNION_DIVISOR.
  pose proof (Z.mod_pos_bound (c + 1) 5 eq_refl).
  apply Z.mod_small. lia.
Qed.

Lemma getQuaternion_result (t : Z) (b : SoftwareQuaternionBoard F)
    (quat : quat_t) :
  fst (fst (getQuaternion F upd q1 q2 q3 q4 t b quat))
  = (((_quatCycleCount b + 1) mod 5) =? 0)%Z
  /\ _quatCycleCount (snd (getQuaternion F upd q1 q2 q3 q4 t b quat))
     = ((_quatCycleCount b + 1) mod 5)%Z.
Proof.
  unfold SoftwareQuaternionBoard.getQuaternion. rewrite next_count_small.
  destruct (_ =? 0)%Z; split; reflexivity.
Qed.

Lemma getQuaternions_cons (t : Z) (times : list Z)
    (b : SoftwareQuaternionBoard F) (quat : quat_t) :
  getQuaternions F upd q1 q2 q3 q4 (t :: times) b quat
  = let r := getQuaternion F upd q1 q2 q3 q4 t b quat in
    let rs := getQuaternions F upd q1 q2 q3 q4 times (snd r) (snd (fst r)) in
    (fst (fst r) :: fst (fst rs), snd (fst rs), snd rs).
Proof.
  cbn [SoftwareQuaternionBoard.getQuaternions].
  destruct (getQuaternion F upd q1 q2 q3 q4 t b quat) as [[r quat1] b1].
  cbn [fst snd].
  destruct (getQuaternions F upd q1 q2 q3 q4 times b1 quat1)
    as [[rs quat2] b2].
  reflexivity.
Qed.

Lemma getQuaternions_count (times : list Z) :
  forall (b : SoftwareQuaternionBoard F) (quat : quat_t),
    times <> [] ->
    _quatCycleCount (snd (getQuaternions F upd q1 q2 q3 q4 times b quat))
    = ((_quatCycleCount b + Z.of_nat (length times)) mod 5)%Z.
Proof.
  induction times as [| t times IH]; intros b quat Hne; [congruence | ].
  rewrite getQuaternions_cons. cbv zeta. cbn [fst snd].
  destruct (getQuaternion_result t b quat) as [_ Hc].
  destruct times as [| t' times'].
  - cbn [SoftwareQuaternionBoard.getQuaternions snd length]. exact Hc.
  - rewrite IH by discriminate.
    rewrite Hc, Zplus_mod_idemp_l. f_equal. cbn [length]. lia.
Qed.

Lemma getQuaternions_nth (times : list Z) :
  forall (b : SoftwareQuaternionBoard F) (quat : quat_t) (k : nat),
    (k < length times)%nat ->
    nth k (fst (fst (getQuaternions F upd q1 q2 q3 q4 times b quat))) false
    = (((_quatCycleCount b + Z.of_nat k + 1) mod 5) =? 0)%Z.
Proof.
  induction times as [| t times IH]; intros b quat k Hk; [cbn in Hk; lia | ].
  rewrite getQuaternions_cons. cbv zeta. cbn [fst snd].
  destruct (getQuaternion_result t b quat) as [Hr Hc].
  destruct k as [| k]; cbn [nth].
  - rewrite Hr. f_equal. f_equal. lia.
  - cbn [length] in Hk. rewrite IH by lia.
    rewrite Hc, <- Z.add_assoc, Zplus_mod_idemp_l. f_equal. f_equal. lia.
Qed.

(** X16.  [getQuaternion] answers true on every fifth call and false on the
    four in between: with the cycle count at [c], the [k]-th call from now
    (counting from 0) answers true exactly when [c + k + 1] is a multiple
    of 5, and after [n] calls the count is [(c + n) mod 5]. *)
Theorem getQuaternion_every_fifth_call (times : list Z)
    (b : SoftwareQuaternionBoard F) (quat : quat_t) (k : nat) :
  (k < length times)%nat ->
  let r := getQuaternions F upd q1 q2 q3 q4 times b quat in
  nth k (fst (fst r)) false
  = (((_quatCycleCount b + Z.of_nat k + 1) mod 5) =? 0)%Z
  /\ _quatCycleCount (snd r)
     = ((_quatCycleCount b + Z.of_nat (length times)) mod 5)%Z.
Proof.
  intros Hk. cbv zeta. split.
  - apply getQuaternions_nth, Hk.
  - apply getQuaternions_count. destruct times; [cbn in Hk; lia | discriminate].
Qed.

End QuaternionCadence.

Section QuaternionTiming.

Import SoftwareQuaternionBoard.

Variable F : Type.
Variable upd : F -> Q -> Q -> Q -> Q -> Q -> Q -> Q -> F.
Variables q1 q2 q3 q4 : F -> Q.


(** X17.  On the call that updates the filter, the integration time handed
    to it is the number of microseconds elapsed since the previous update
    divided by 10^6, also when the 32-bit microsecond clock has wrapped
    around once in between; the IMU values are passed with [ax], [gy] and
    [gz] negated.  On the other calls the filter, the stored time and the
    caller's buffer are left untouched. *)
Theorem getQuaternion_deltat_survives_clock_wrap
    (b : SoftwareQuaternionBoard F) (quat : quat_t) (micros elapsed : Z) :
  (0 <= elapsed < 2 ^ 32)%Z ->
  micros = uint32 (_timePrev b + elapsed) ->
  let f := upd (_quaternionFilter b) (- _ax F b) (_ay F b) (_az F b)
             (_gx F b) (- _gy F b) (- _gz F b)
             (inject_Z elapsed / 1000000) in
  let r := getQuaternion F upd q1 q2 q3 q4 micros b quat in
  (((_quatCycleCount b + 1) mod 5 = 0)%Z ->
   fst (fst r) = true
   /\ snd (fst r) = mkQuat (q1 f) (q2 f) (q3 f) (q4 f)
   /\ _quaternionFilter (snd r) = f
   /\ _timePrev (snd r) = micros)
  /\ (((_quatCycleCount b + 1) mod 5 <> 0)%Z ->
      fst (fst r) = false
      /\ snd (fst r) = quat
      /\ _quaternionFilter (snd r) = _quaternionFilter b
      /\ _timePrev (snd r) = _timePrev b).
Proof.
  intros He Hm. cbv zeta.
  unfold SoftwareQuaternionBoard.getQuaternion. rewrite next_count_small.
  assert (Hd : uint32 (micros - _timePrev b) = elapsed).
  { subst micros. unfold uint32.
    rewrite Zminus_mod_idemp_l.
    replace (_timePrev b + elapsed - _timePrev b)%Z with elapsed by lia.
    apply Z.mod_small, He. }
  split; intros Hc.
  - rewrite Hc. cbn [Z.eqb fst snd]. rewrite Hd. repeat split.
  - apply Z.eqb_neq in Hc. rewrite Hc. cbn [fst snd]. repeat split.
Qed.

End QuaternionTiming.

Lemma getQuaternion_every_fifth_call_witness :
  nth 4
    (fst (fst (SoftwareQuaternionBoard.getQuaternions Q
                 SoftwareQuaternionBoard.summing_update
                 (fun f => f) (fun f => f) (fun f => f) (fun f => f)
                 [10; 20; 30; 40; 50; 60]%Z
                 SoftwareQuaternionBoard.fresh_board
                 (SoftwareQuaternionBoard.mkQuat 0 0 0 0))))
    false
  = true.
Proof.
  rewrite (proj1 (getQuaternion_every_fifth_call Q
                    SoftwareQuaternionBoard.summing_update
                    (fun f => f) (fun f => f) (fun f => f) (fun f => f)
                    [10; 20; 30; 40; 50; 60]%Z
                    SoftwareQuaternionBoard.fresh_board
                    (SoftwareQuaternionBoard.mkQuat 0 0 0 0) 4%nat
                    ltac:(cbn; lia))).
  reflexivity.
Defined.

Lemma getQuaternion_deltat_witness :
  SoftwareQuaternionBoard._quaternionFilter
    (snd (SoftwareQuaternionBoard.getQuaternion Q
            SoftwareQuaternionBoard.summing_update
            (fun f => f) (fun f => f) (fun f => f) (fun f => f)
            1000%Z
            (SoftwareQuaternionBoard.mkSoftwareQuaternionBoard
               0 4%Z 4294966296%Z 0 0 0 0 0 0)
            (SoftwareQuaternionBoard.mkQuat 0 0 0 0)))
  == 0.002.
Proof.
  destruct (getQuaternion_deltat_survives_clock_wrap Q
              SoftwareQuaternionBoard.summing_update
              (fun f => f) (fun f => f) (fun f => f) (fun f => f)
              (SoftwareQuaternionBoard.mkSoftwareQuaternionBoard
                 0 4%Z 4294966296%Z 0 0 0 0 0 0)
              (SoftwareQuaternionBoard.mkQuat 0 0 0 0) 1000%Z 2000%Z)
    as [H _].
  - lia.
  - reflexivity.
  - destruct (H eq_refl) as (_ & _ & Hf & _). rewrite Hf. reflexivity.
Defined.

(** ** The firmware's [Hackflight] *)

Section FirmwareExtras.

Import Firmware FirmwareFacts.

Local Open Scope Z_scope.

Variables DEMAND_ROLL DEMAND_PITCH DEMAND_YAW DEMAND_THROTTLE : Z.

Ltac crunch_fw :=
  cbv [Firmware.gotRcUpdate Firmware.update Firmware.updateImu
       Firmware.updateCalibrationState Firmware.blinkLedForTilt
       Firmware.bind Firmware.this Firmware.call Firmware.assign
       Firmware.when Firmware.ret
       Firmware.with_armed Firmware.with_accCalibrated
       Firmware.with_accelCalibrationCountdown
       Firmware.with_gyroCalibrationCountdown Firmware.with_haveSmallAngle
       Firmware.with_taskOrder Firmware.with_on
       Firmware.armed Firmware.accCalibrated Firmware.calibratingGyroCycles
       Firmware.calibratingAccelCycles Firmware.accelCalibrationCountdown
       Firmware.gyroCalibrationCountdown Firmware.haveSmallAngle
       Firmware.smallAngle Firmware.taskOrder Firmware.on
       after_rc after_sticks_armed after_sticks_disarmed rc_due
       Firmware.result_of Firmware.object_after Firmware.calls_of
       negb andb orb app fst snd].

Ltac split_ifs :=
  repeat match goal with
         | |- context [if ?b then _ else _] =>
             destruct b; crunch_fw; try reflexivity
         end.

(** [gotRcUpdate] by cases. *)
Lemma gotRcUpdate_eq (t : tick) (h : Hackflight) :
  gotRcUpdate DEMAND_ROLL DEMAND_PITCH DEMAND_YAW DEMAND_THROTTLE t h
  = if rc_due t then
      let h' := after_rc DEMAND_ROLL DEMAND_PITCH DEMAND_YAW DEMAND_THROTTLE
                  t h in
      (true, h',
       RcUpdate
         :: (if armed h then [ShowAuxStatus (auxState (rc t))] else [])
         ++ (if throttleIsDown (rc t) then [StabResetIntegral] else [])
         ++ (if Bool.eqb (armed h') (armed h) then []
             else [ShowArmedStatus (armed h')])
         ++ [ExtrasCheckSwitch])
    else (false, h, []).
Proof.
  destruct h as [ar ac gc acy acd gcd hs sm to o].
  destruct t as [due ser [st aux thr ch] cnt ct idue a0 a1 clt chk].
  crunch_fw.
  cbv [rcTask_checkAndUpdate rcSerialReady rc sticks auxState throttleIsDown
       changed].
  destruct due, ser; crunch_fw; try reflexivity;
    destruct ar, thr, ch; crunch_fw; try reflexivity; split_ifs.
Qed.


Lemma shiftl_pow2 (a n : Z) : 0 <= n -> Z.shiftl a (2 * n) = a * 2 ^ (2 * n).
Proof. intros H. apply Z.shiftl_mul_pow2. lia. Qed.

(** The arm and the gyro-calibration stick combinations differ. *)
Lemma sticks_arm_not_gyro_calibration :
  0 <= DEMAND_YAW -> 0 <= DEMAND_PITCH ->
  sticks_arm DEMAND_ROLL DEMAND_PITCH DEMAND_YAW DEMAND_THROTTLE
  <> sticks_gyro_calibration DEMAND_ROLL DEMAND_PITCH DEMAND_YAW
       DEMAND_THROTTLE.
Proof.
  intros Hy Hp. unfold sticks_arm, sticks_gyro_calibration.
  unfold YAW_HI, YAW_LO, PIT_CE, PIT_LO.
  rewrite !shiftl_pow2 by assumption.
  assert (0 < 2 ^ (2 * DEMAND_YAW)) by (apply Z.pow_pos_nonneg; lia).
  assert (0 < 2 ^ (2 * DEMAND_PITCH)) by (apply Z.pow_pos_nonneg; lia).
  lia.
Qed.

(** X18.  [gotRcUpdate] arms (armed goes from false to true) exactly when
    the RC channels are due (the RC timer fired or serial RC data is
    ready), the sticks have changed and are at throttle-low, yaw-high,
    pitch and roll centred, the gyro calibration countdown is at 0, the
    accelerometer is calibrated and the aux switch is at 0. *)
Theorem firmware_arms_iff (t : tick) (h : Hackflight) :
  0 <= DEMAND_YAW -> 0 <= DEMAND_PITCH ->
  let h' := object_after
              (gotRcUpdate DEMAND_ROLL DEMAND_PITCH DEMAND_YAW DEMAND_THROTTLE
                 t h) in
  (armed h = false /\ armed h' = true)
  <-> (rcTask_checkAndUpdate t || rcSerialReady t = true
       /\ changed (rc t) = true /\ armed h = false
       /\ sticks (rc t)
          = sticks_arm DEMAND_ROLL DEMAND_PITCH DEMAND_YAW DEMAND_THROTTLE
       /\ gyroCalibrationCountdown h = 0 /\ accCalibrated h = true
       /\ auxState (rc t) = 0).
Proof.
  intros Hy Hp. cbv zeta.
  pose proof (sticks_arm_not_gyro_calibration Hy Hp) as Hne.
  rewrite gotRcUpdate_eq. fold (rc_due t).
  destruct (rc_due t); cbn [object_after fst snd];
    [ | intuition congruence].
  unfold after_rc.
  destruct (changed (rc t)); [ | intuition congruence].
  destruct (armed h) eqn:Ea; [intuition congruence | ].
  unfold after_sticks_disarmed. cbv zeta.
  destruct (Z.eqb_spec (sticks (rc t))
              (sticks_arm DEMAND_ROLL DEMAND_PITCH DEMAND_YAW DEMAND_THROTTLE))
    as [Es | Es].
  - destruct (Z.eqb_spec (sticks (rc t))
                (sticks_gyro_calibration DEMAND_ROLL DEMAND_PITCH DEMAND_YAW
                   DEMAND_THROTTLE)) as [Eg | _]; [congruence | ].
    cbn [andb].
    destruct (Z.eqb_spec (gyroCalibrationCountdown h) 0) as [E0 | E0];
      destruct (accCalibrated h);
      destruct (Z.eqb_spec (auxState (rc t)) 0) as [E1 | E1]; cbn [andb];
      destruct (_ =? _); cbn; rewrite ?Ea; intuition congruence.
  - cbn [andb].
    destruct (_ =? _); destruct (_ =? _); cbn; rewrite ?Ea;
      intuition congruence.
Qed.

(** X19.  [gotRcUpdate] disarms an armed state exactly when the RC channels
    are due, the sticks have changed and are at throttle-low, yaw-low,
    pitch and roll centred. *)
Theorem firmware_disarms_iff (t : tick) (h : Hackflight) :
  armed h = true ->
  let h' := object_after
              (gotRcUpdate DEMAND_ROLL DEMAND_PITCH DEMAND_YAW DEMAND_THROTTLE
                 t h) in
  armed h' = false
  <-> (rcTask_checkAndUpdate t || rcSerialReady t = true
       /\ changed (rc t) = true
       /\ sticks (rc t)
          = sticks_disarm DEMAND_ROLL DEMAND_PITCH DEMAND_YAW DEMAND_THROTTLE).
Proof.
  intros Ea. cbv zeta. rewrite gotRcUpdate_eq. fold (rc_due t).
  destruct (rc_due t); cbn [object_after fst snd];
    [ | intuition congruence].
  unfold after_rc.
  destruct (changed (rc t)); [ | intuition congruence].
  rewrite Ea. unfold after_sticks_armed.
  destruct (Z.eqb_spec (sticks (rc t))
              (sticks_disarm DEMAND_ROLL DEMAND_PITCH DEMAND_YAW
                 DEMAND_THROTTLE)); cbn; intuition congruence.
Qed.

(** X20.  When the RC channels are not due, [gotRcUpdate] answers false,
    makes no call and changes nothing.  When they are due it answers true,
    updates the RC first and checks the extras switch last, and it resets
    the stabilizer's integral exactly when the throttle is down. *)
Theorem gotRcUpdate_resets_integral_when_landed (t : tick) (h : Hackflight) :
  let r := gotRcUpdate DEMAND_ROLL DEMAND_PITCH DEMAND_YAW DEMAND_THROTTLE t h in
  (rcTask_checkAndUpdate t || rcSerialReady t = false -> r = (false, h, []))
  /\ (rcTask_checkAndUpdate t || rcSerialReady t = true ->
      result_of r = true
      /\ (exists middle, calls_of r = RcUpdate :: middle ++ [ExtrasCheckSwitch])
      /\ (In StabResetIntegral (calls_of r) <-> throttleIsDown (rc t) = true)).
Proof.
  cbv zeta. rewrite gotRcUpdate_eq. fold (rc_due t).
  split; intros ->; [reflexivity | ].
  cbv zeta. cbn [result_of calls_of fst snd].
  split; [reflexivity | split].
  - eexists. rewrite !app_assoc. reflexivity.
  - destruct (armed h), (throttleIsDown (rc t)), (Bool.eqb _ _);
      cbn; intuition (try congruence; try discriminate).
Qed.


Ltac crunch_cal :=
  cbv [after_calibration calibration_calls decremented small_angle
       imu_angle0 imu_angle1 accelCalibrationTask_check calibrationTime];
  crunch_fw.

(** [updateCalibrationState] written out. *)
Lemma updateCalibrationState_eq (t : tick) (h : Hackflight) :
  updateCalibrationState t h
  = (tt, after_calibration t h, calibration_calls t h).
Proof.
  destruct h as [ar ac gc acy acd gcd hs sm to o].
  destruct t as [due ser r cnt ct idue a0 a1 clt chk].
  destruct (acd >? 0) eqn:E1, (gcd >? 0) eqn:E2, (acd - 1 >? 0) eqn:E3,
    (gcd - 1 >? 0) eqn:E4, (Z.abs a0 <? sm) eqn:E5, (Z.abs a1 <? sm) eqn:E6;
    destruct chk, o, ac, ar;
    do 5 (crunch_cal; rewrite ?E1, ?E2, ?E3, ?E4, ?E5, ?E6);
    reflexivity.
Qed.

Lemma calibrations_cons (t : tick) (ts : list tick) (h : Hackflight) :
  calibrations (t :: ts) h
  = calibrations ts (object_after (updateCalibrationState t h)).
Proof. reflexivity. Qed.

(** X21.  The two calibration countdowns are decremented once per
    [updateCalibrationState] and stop at zero: after [n] calls a countdown
    that stood at [c >= 0] stands at [max 0 (c - n)]; it never wraps
    below zero. *)
Theorem calibration_countdowns_stop_at_zero (ts : list tick) (h : Hackflight) :
  0 <= gyroCalibrationCountdown h -> 0 <= accelCalibrationCountdown h ->
  let h' := calibrations ts h in
  gyroCalibrationCountdown h'
  = Z.max 0 (gyroCalibrationCountdown h - Z.of_nat (length ts))
  /\ accelCalibrationCountdown h'
     = Z.max 0 (accelCalibrationCountdown h - Z.of_nat (length ts)).
Proof.
  cbv zeta. revert h. induction ts as [| t ts IH]; intros h Hg Ha.
  - cbn [calibrations fold_left length Z.of_nat]. lia.
  - rewrite calibrations_cons, updateCalibrationState_eq.
    cbn [object_after fst snd].
    assert (Hd : forall c, 0 <= c -> decremented c = Z.max 0 (c - 1)).
    { intros c Hc. unfold decremented. destruct (Z.gtb_spec c 0); lia. }
    destruct (IH (after_calibration t h)) as [IHg IHa].
    + cbn [after_calibration gyroCalibrationCountdown]. rewrite Hd; lia.
    + cbn [after_calibration accelCalibrationCountdown]. rewrite Hd; lia.
    + rewrite IHg, IHa.
      cbn [after_calibration gyroCalibrationCountdown accelCalibrationCountdown
           length].
      rewrite !Hd by assumption. lia.
Qed.

(** X22.  Whenever the accelerometer calibration task is due,
    [updateCalibrationState] sets [accCalibrated] to whether both angles
    are below [smallAngle] in magnitude; on a steep angle it also toggles
    LED 0 and restarts the task's timer, and on a small one it does
    neither.  When the task is not due, [accCalibrated] and the blink state
    are left as they were. *)
Theorem accCalibrated_follows_angle (t : tick) (h : Hackflight) :
  let r := updateCalibrationState t h in
  let level := (Z.abs (imu_angle0 t) <? smallAngle h)
               && (Z.abs (imu_angle1 t) <? smallAngle h) in
  (accelCalibrationTask_check t = true ->
   accCalibrated (object_after r) = level
   /\ (level = false ->
       on (object_after r) = negb (on h)
       /\ In (LedSet 0 (negb (on h))) (calls_of r)
       /\ In (AccelCalibrationTaskUpdate (calibrationTime t)) (calls_of r))
   /\ (level = true ->
       on (object_after r) = on h
       /\ ~ In (AccelCalibrationTaskUpdate (calibrationTime t)) (calls_of r)))
  /\ (accelCalibrationTask_check t = false ->
      accCalibrated (object_after r) = accCalibrated h
      /\ on (object_after r) = on h).
Proof.
  cbv zeta. rewrite updateCalibrationState_eq.
  cbn [object_after calls_of fst snd after_calibration accCalibrated on].
  unfold calibration_calls, small_angle.
  set (level := (Z.abs (imu_angle0 t) <? smallAngle h)
                && (Z.abs (imu_angle1 t) <? smallAngle h)).
  split; intros ->; cbn [andb]; [ | split; reflexivity].
  split; [reflexivity | split]; intros ->; cbn [negb];
    (split; [reflexivity | ]).
  - split; apply in_or_app; right; cbn; auto.
  - rewrite app_nil_r. intros H.
    destruct (_ || _); [destruct H as [H | []]; discriminate H | ].
    apply in_app_or in H. destruct H as [H | [H | []]]; [ | discriminate H].
    destruct (accCalibrated h); [destruct H as [H | []]; discriminate H | ].
    destruct H.
Qed.


Lemma fw_bind_step {A B} (c : Cmd A) (k : A -> Cmd B) (h h1 : Hackflight)
    (a : A) (t1 : list event) :
  c h = (a, h1, t1) ->
  bind c k h
  = (result_of (k a h1), object_after (k a h1), t1 ++ calls_of (k a h1)).
Proof.
  intros E. unfold bind, result_of, object_after, calls_of. rewrite E.
  destruct (k a h1) as [[b h2] t2]. reflexivity.
Qed.

Lemma updateImu_eq (t : tick) (h : Hackflight) :
  updateImu t h
  = if imuTask_checkAndUpdate t
    then (tt, after_calibration t h, imu_calls t h)
    else (tt, h, []).
Proof.
  unfold updateImu. destruct (imuTask_checkAndUpdate t); [ | reflexivity].
  cbn [when].
  assert (E1 : call RcComputeExpo h = (tt, h, [RcComputeExpo])) by reflexivity.
  rewrite (fw_bind_step _ _ _ _ _ _ E1).
  assert (E2 : this h = (h, h, [])) by reflexivity.
  rewrite (fw_bind_step _ _ _ _ _ _ E2).
  assert (E3 : call (ImuUpdate (currentTime t) (armed h)
                       (accelCalibrationCountdown h) (gyroCalibrationCountdown h))
                 h
               = (tt, h, [ImuUpdate (currentTime t) (armed h)
                            (accelCalibrationCountdown h)
                            (gyroCalibrationCountdown h)])) by reflexivity.
  rewrite (fw_bind_step _ _ _ _ _ _ E3).
  rewrite (fw_bind_step _ _ _ _ _ _ (updateCalibrationState_eq t h)).
  reflexivity.
Qed.

(** One [update()] written out. *)
Lemma update_eq (t : tick) (h : Hackflight) :
  update DEMAND_ROLL DEMAND_PITCH DEMAND_YAW DEMAND_THROTTLE t h
  = let r := gotRcUpdate DEMAND_ROLL DEMAND_PITCH DEMAND_YAW DEMAND_THROTTLE
               t h in
    let h1 := object_after r in
    let h2 := if rc_due t then h1 else after_extras t h1 in
    (tt,
     (if imuTask_checkAndUpdate t then after_calibration t h2 else h2),
     calls_of r
     ++ (if rc_due t then [] else [ExtrasPerformTask (taskOrder h)])
     ++ (if imuTask_checkAndUpdate t then imu_calls t h2 else [])).
Proof.
  cbv zeta. unfold update.
  pose proof (gotRcUpdate_eq t h) as E0.
  destruct (rc_due t).
  - cbv zeta in E0.
    rewrite (fw_bind_step _ _ _ _ _ _ E0), E0. cbn [negb when].
    erewrite (fw_bind_step (ret tt)) by reflexivity.
    rewrite updateImu_eq.
    cbn [object_after calls_of result_of fst snd app].
    destruct (imuTask_checkAndUpdate t); reflexivity.
  - rewrite (fw_bind_step _ _ _ _ _ _ E0), E0. cbn [negb when].
    assert (E : bind this
                  (fun h0 =>
                     bind (call (ExtrasPerformTask (taskOrder h0)))
                       (fun _ =>
                          bind (assign (fun h1 =>
                                          with_taskOrder h1 (taskOrder h1 + 1)))
                            (fun _ =>
                               bind this
                                 (fun h1 =>
                                    when (taskOrder h1 >=? extrasGetTaskCount t)
                                      (assign (fun h2 => with_taskOrder h2 0))))))
                  h
                = (tt, after_extras t h, [ExtrasPerformTask (taskOrder h)])).
    { destruct h as [ar ac gc acy acd gcd hs sm to o].
      unfold after_extras. crunch_fw.
      destruct (to + 1 >=? extrasGetTaskCount t); reflexivity. }
    rewrite (fw_bind_step _ _ _ _ _ _ E).
    rewrite updateImu_eq.
    cbn [object_after calls_of result_of fst snd app].
    destruct (imuTask_checkAndUpdate t); reflexivity.
Qed.


Ltac split_inv :=
  unfold calibration_inv;
  split; [ | split; [ | split; [ | split; [ | split]]]].

Lemma after_rc_fields (t : tick) (h : Hackflight) :
  let h' := after_rc DEMAND_ROLL DEMAND_PITCH DEMAND_YAW DEMAND_THROTTLE t h in
  calibratingGyroCycles h' = calibratingGyroCycles h
  /\ smallAngle h' = smallAngle h
  /\ accCalibrated h' = accCalibrated h
  /\ taskOrder h' = taskOrder h
  /\ (gyroCalibrationCountdown h' = gyroCalibrationCountdown h
      \/ gyroCalibrationCountdown h' = calibratingGyroCycles h)
  /\ (armed h' = true ->
      armed h = true
      \/ (gyroCalibrationCountdown h' = 0 /\ accCalibrated h = true)).
Proof.
  destruct h as [ar ac gc acy acd gcd hs sm to o].
  cbv zeta. unfold after_rc, after_sticks_armed, after_sticks_disarmed.
  cbv zeta.
  destruct (changed (rc t)); [ | cbn; intuition].
  destruct ar; cbn [armed].
  - destruct (_ =? _); cbn; intuition.
  - destruct (sticks (rc t) =? sticks_gyro_calibration _ _ _ _);
      destruct (sticks (rc t) =? sticks_arm _ _ _ _); cbn [andb];
      cbn [with_gyroCalibrationCountdown gyroCalibrationCountdown accCalibrated
           calibratingGyroCycles];
      try (destruct (Z.eqb_spec gc 0)); try (destruct (Z.eqb_spec gcd 0));
      destruct ac; cbn [andb]; destruct (auxState (rc t) =? 0);
      destruct (sticks (rc t) =? sticks_accel_calibration _ _ _ _);
      cbn; intuition congruence.
Qed.

Lemma update_keeps_calibration_inv (small g : Z) (t : tick) (h : Hackflight)
    (n : Z) (seen : bool) :
  calibration_inv small g h n seen ->
  calibration_inv small g
    (object_after
       (update DEMAND_ROLL DEMAND_PITCH DEMAND_YAW DEMAND_THROTTLE t h))
    (n + (if imuTask_checkAndUpdate t then 1 else 0))
    (seen || levelled small t).
Proof.
  intros I.
  rewrite update_eq. cbv zeta. cbn [object_after fst snd].
  rewrite gotRcUpdate_eq.
  set (h1 := object_after
               (if rc_due t
                then
                  let h' := after_rc DEMAND_ROLL DEMAND_PITCH DEMAND_YAW
                              DEMAND_THROTTLE t h in
                  (true, h', _)
                else (false, h, []))).
  assert (I1 : calibration_inv small g h1 n seen).
  { unfold h1. destruct (rc_due t); cbn [object_after fst snd];
      [ | exact I].
    destruct I as (Hc & Hs & Hn & Hg & Ha & Hr).
    pose proof (after_rc_fields t h) as F. cbv zeta in F.
    destruct F as (F1 & F2 & F3 & _ & F5 & F6).
    split_inv.
    - congruence.
    - congruence.
    - exact Hn.
    - destruct F5 as [-> | ->]; lia.
    - rewrite F3. exact Ha.
    - intros E. apply F6 in E. destruct E as [E | [E0 E1]]; [tauto | ].
      split; [lia | tauto]. }
  clearbody h1.
  set (h2 := if rc_due t then h1 else after_extras t h1).
  assert (I2 : calibration_inv small g h2 n seen).
  { unfold h2. destruct (rc_due t); [exact I1 | ].
    destruct h1; exact I1. }
  clearbody h2. destruct I2 as (Hc2 & Hs2 & Hn2 & Hg2 & Ha2 & Hr2).
  unfold levelled.
  destruct (imuTask_checkAndUpdate t); cbn [andb].
  - unfold after_calibration.
    assert (Hd : gyroCalibrationCountdown h2 - 1
                 <= decremented (gyroCalibrationCountdown h2))
      by (unfold decremented; destruct (_ >? 0); lia).
    split_inv;
      cbn [calibratingGyroCycles smallAngle gyroCalibrationCountdown
           accCalibrated armed].
    + exact Hc2.
    + exact Hs2.
    + lia.
    + lia.
    + rewrite Hs2.
      destruct (accelCalibrationTask_check t); cbn [andb].
      * intros ->. apply orb_true_r.
      * intros E. rewrite (Ha2 E). reflexivity.
    + intros E. apply Hr2 in E. destruct E as [E ->]. split; [lia | ].
      reflexivity.
  - rewrite Z.add_0_r, orb_false_r. split_inv; assumption.
Qed.

Lemma run_keeps_calibration_inv (small g : Z) (ts : list tick) :
  forall (h : Hackflight) (n : Z) (seen : bool),
    calibration_inv small g h n seen ->
    calibration_inv small g
      (run DEMAND_ROLL DEMAND_PITCH DEMAND_YAW DEMAND_THROTTLE h ts)
      (n + imu_updates ts) (seen || existsb (levelled small) ts).
Proof.
  induction ts as [| t ts IH]; intros h n seen I.
  - unfold imu_updates. cbn. rewrite Z.add_0_r, orb_false_r. exact I.
  - change (run DEMAND_ROLL DEMAND_PITCH DEMAND_YAW DEMAND_THROTTLE h (t :: ts))
      with (run DEMAND_ROLL DEMAND_PITCH DEMAND_YAW DEMAND_THROTTLE
              (object_after
                 (update DEMAND_ROLL DEMAND_PITCH DEMAND_YAW DEMAND_THROTTLE
                    t h)) ts).
    apply (update_keeps_calibration_inv small g t) in I.
    apply IH in I.
    replace (n + imu_updates (t :: ts))
      with (n + (if imuTask_checkAndUpdate t then 1 else 0) + imu_updates ts).
    + cbn [existsb]. rewrite orb_assoc. exact I.
    + unfold imu_updates. cbn [filter].
      destruct (imuTask_checkAndUpdate t); cbn [length]; lia.
Qed.

(** X23.  After [init], no sequence of [update()] calls arms before
    calibration has run its course: if the state is armed at the end, at
    least [calibratingGyroCycles] IMU updates have taken place, and one of
    them had the accelerometer calibration task due with both angles below
    [smallAngle].  The collaborators' calls are taken to write none of the
    members. *)
Theorem armed_only_after_calibration (small gyroCycles accelCycles : Z)
    (h0 : Hackflight) (ts : list tick) :
  armed (run DEMAND_ROLL DEMAND_PITCH DEMAND_YAW DEMAND_THROTTLE
           (init small gyroCycles accelCycles h0) ts) = true ->
  gyroCycles <= imu_updates ts /\ existsb (levelled small) ts = true.
Proof.
  intros Ha.
  assert (I : calibration_inv small gyroCycles
                (init small gyroCycles accelCycles h0) 0 false).
  { split_inv; cbn; try reflexivity; try lia; discriminate. }
  apply (run_keeps_calibration_inv small gyroCycles ts) in I.
  destruct I as (_ & _ & _ & _ & _ & I). exact (I Ha).
Qed.

Lemma tasks_performed_app (a b : list event) :
  tasks_performed (a ++ b) = tasks_performed a ++ tasks_performed b.
Proof.
  induction a as [| e a IH]; [reflexivity | ].
  destruct e; cbn [app tasks_performed]; rewrite IH; reflexivity.
Qed.

Lemma tasks_performed_calibration (t : tick) (h : Hackflight) :
  tasks_performed (calibration_calls t h) = [].
Proof.
  unfold calibration_calls. rewrite tasks_performed_app.
  destruct (_ || _), (_ && _); try destruct (accCalibrated h); reflexivity.
Qed.

Lemma tasks_performed_imu (t : tick) (h : Hackflight) :
  tasks_performed (imu_calls t h) = [].
Proof.
  unfold imu_calls. cbn [tasks_performed].
  rewrite tasks_performed_app, tasks_performed_calibration. reflexivity.
Qed.

(** X24.  A tick performs an extras task exactly when [gotRcUpdate] answers
    false, and the task is the one [taskOrder] stood at - also when the
    board reports zero tasks, in which case task 0 is still requested.
    Afterwards [taskOrder] is the next index, or 0 when that reaches the
    task count. *)
Theorem extras_task_only_without_rc_update (t : tick) (h : Hackflight) :
  let r := update DEMAND_ROLL DEMAND_PITCH DEMAND_YAW DEMAND_THROTTLE t h in
  tasks_performed (calls_of r)
  = (if rcTask_checkAndUpdate t || rcSerialReady t then [] else [taskOrder h])
  /\ taskOrder (object_after r)
     = (if rcTask_checkAndUpdate t || rcSerialReady t then taskOrder h
        else if taskOrder h + 1 >=? extrasGetTaskCount t then 0
             else taskOrder h + 1).
Proof.
  cbv zeta. rewrite update_eq. cbv zeta. cbn [object_after calls_of fst snd].
  rewrite gotRcUpdate_eq. fold (rc_due t).
  pose proof (after_rc_fields t h) as F. cbv zeta in F.
  destruct F as (_ & _ & _ & F4 & _).
  destruct (rc_due t); cbn [object_after calls_of fst snd].
  - split.
    + rewrite !tasks_performed_app.
      assert (E : forall l, tasks_performed
                              (if imuTask_checkAndUpdate t then imu_calls t l
                               else []) = [])
        by (intros l; destruct (imuTask_checkAndUpdate t);
            [apply tasks_performed_imu | reflexivity]).
      rewrite E. cbn [tasks_performed].
      rewrite !tasks_performed_app.
      destruct (armed h), (throttleIsDown (rc t)), (Bool.eqb _ _); reflexivity.
    + destruct (imuTask_checkAndUpdate t); cbn [after_calibration taskOrder];
        exact F4.
  - split.
    + cbn [app tasks_performed].
      destruct (imuTask_checkAndUpdate t);
        [rewrite tasks_performed_imu | ]; reflexivity.
    + destruct (imuTask_checkAndUpdate t);
        cbn [after_calibration after_extras with_taskOrder taskOrder];
        reflexivity.
Qed.

Lemma trace_cons (t : tick) (ts : list tick) (h : Hackflight) :
  trace DEMAND_ROLL DEMAND_PITCH DEMAND_YAW DEMAND_THROTTLE h (t :: ts)
  = calls_of (update DEMAND_ROLL DEMAND_PITCH DEMAND_YAW DEMAND_THROTTLE t h)
    ++ trace DEMAND_ROLL DEMAND_PITCH DEMAND_YAW DEMAND_THROTTLE
         (object_after
            (update DEMAND_ROLL DEMAND_PITCH DEMAND_YAW DEMAND_THROTTLE t h))
         ts.
Proof. reflexivity. Qed.

Lemma update_idle_extras (t : tick) (h : Hackflight) :
  rcTask_checkAndUpdate t || rcSerialReady t = false ->
  let r := update DEMAND_ROLL DEMAND_PITCH DEMAND_YAW DEMAND_THROTTLE t h in
  tasks_performed (calls_of r) = [taskOrder h]
  /\ taskOrder (object_after r)
     = (if taskOrder h + 1 >=? extrasGetTaskCount t then 0
        else taskOrder h + 1).
Proof.
  intros Hidle. cbv zeta. rewrite update_eq. cbv zeta.
  cbn [object_after calls_of fst snd].
  rewrite gotRcUpdate_eq. unfold rc_due. rewrite Hidle.
  cbn [object_after calls_of fst snd app tasks_performed].
  destruct (imuTask_checkAndUpdate t);
    rewrite ?tasks_performed_imu;
    cbn [after_calibration after_extras with_taskOrder taskOrder];
    split; reflexivity.
Qed.

(** X25.  The extras tasks are served round robin: over ticks without RC
    update, with the board reporting [n > 0] tasks and [taskOrder] at
    [k0 < n], the [k]-th such tick performs task [(k0 + k) mod n], and
    afterwards [taskOrder] stands at [(k0 + number of ticks) mod n]. *)
Theorem extras_tasks_round_robin (n : Z) (ts : list tick) (h : Hackflight) :
  0 < n -> 0 <= taskOrder h < n ->
  Forall (fun t => rcTask_checkAndUpdate t || rcSerialReady t = false
                   /\ extrasGetTaskCount t = n) ts ->
  tasks_performed
    (trace DEMAND_ROLL DEMAND_PITCH DEMAND_YAW DEMAND_THROTTLE h ts)
  = map (fun k => (taskOrder h + Z.of_nat k) mod n) (seq 0 (length ts))
  /\ taskOrder (run DEMAND_ROLL DEMAND_PITCH DEMAND_YAW DEMAND_THROTTLE h ts)
     = (taskOrder h + Z.of_nat (length ts)) mod n.
Proof.
  intros Hn. revert h. induction ts as [| t ts IH]; intros h Hk Hall.
  - cbn. rewrite Z.add_0_r, Z.mod_small by lia. split; reflexivity.
  - destruct (Forall_inv Hall) as [Hidle Hcount].
    pose proof (update_idle_extras t h Hidle) as S.
    cbv zeta in S. rewrite Hcount in S. destruct S as [S1 S2].
    set (h1 := object_after
                 (update DEMAND_ROLL DEMAND_PITCH DEMAND_YAW DEMAND_THROTTLE
                    t h)) in *.
    assert (Hnext : taskOrder h1 = (taskOrder h + 1) mod n).
    { rewrite S2. destruct (Z.geb_spec (taskOrder h + 1) n).
      - replace (taskOrder h + 1) with n by lia. now rewrite Z.mod_same by lia.
      - now rewrite Z.mod_small by lia. }
    destruct (IH h1) as [IH1 IH2].
    { rewrite Hnext. apply Z.mod_pos_bound, Hn. }
    { exact (Forall_inv_tail Hall). }
    split.
    + rewrite trace_cons, tasks_performed_app, S1. fold h1. rewrite IH1.
      cbn [length seq map app]. f_equal.
      * rewrite Z.add_0_r, Z.mod_small by lia. reflexivity.
      * rewrite <- seq_shift, map_map. apply map_ext. intros k.
        rewrite Hnext, Zplus_mod_idemp_l. f_equal. lia.
    + change (run DEMAND_ROLL DEMAND_PITCH DEMAND_YAW DEMAND_THROTTLE h
                (t :: ts))
        with (run DEMAND_ROLL DEMAND_PITCH DEMAND_YAW DEMAND_THROTTLE h1 ts).
      rewrite IH2, Hnext, Zplus_mod_idemp_l. f_equal. cbn [length]. lia.
Qed.

End FirmwareExtras.

(** ** Instances with the usual channel order: roll 0, pitch 1, yaw 2,
    throttle 3. *)

Section FirmwareInstances.

Import Firmware FirmwareFacts.

Local Open Scope Z_scope.

Lemma firmware_arms_witness :
  armed (object_after
           (gotRcUpdate 0 1 2 3 (rc_tick (sticks_arm 0 1 2 3)) standing_by))
  = true.
Proof.
  pose proof (firmware_arms_iff 0 1 2 3 (rc_tick (sticks_arm 0 1 2 3))
                standing_by ltac:(lia) ltac:(lia)) as W.
  cbv zeta in W. apply (proj2 W). vm_compute. intuition.
Defined.

Lemma firmware_disarms_witness :
  armed (object_after
           (gotRcUpdate 0 1 2 3 (rc_tick (sticks_disarm 0 1 2 3)) power_on))
  = false.
Proof.
  pose proof (firmware_disarms_iff 0 1 2 3 (rc_tick (sticks_disarm 0 1 2 3))
                power_on eq_refl) as W.
  cbv zeta in W. apply (proj2 W). vm_compute. intuition.
Defined.

Lemma gotRcUpdate_resets_integral_witness :
  In StabResetIntegral (calls_of (gotRcUpdate 0 1 2 3 (rc_tick 0) power_on)).
Proof.
  pose proof (gotRcUpdate_resets_integral_when_landed 0 1 2 3 (rc_tick 0)
                power_on) as W.
  cbv zeta in W. destruct W as [_ W].
  destruct (W eq_refl) as (_ & _ & W3). apply (proj2 W3). reflexivity.
Defined.

Lemma calibration_countdowns_witness :
  gyroCalibrationCountdown (calibrations [imu_tick; imu_tick; imu_tick] power_on)
  = 4%Z.
Proof.
  pose proof (calibration_countdowns_stop_at_zero
                [imu_tick; imu_tick; imu_tick] power_on
                ltac:(cbn; lia) ltac:(cbn; lia)) as W.
  cbv zeta in W. destruct W as [W _]. rewrite W. reflexivity.
Defined.

Lemma accCalibrated_follows_angle_witness :
  accCalibrated (object_after (updateCalibrationState tilted_tick power_on))
  = false.
Proof.
  pose proof (accCalibrated_follows_angle tilted_tick power_on) as W.
  cbv zeta in W. destruct W as [W _].
  destruct (W eq_refl) as (W1 & _). rewrite W1. reflexivity.
Defined.

Lemma armed_only_after_calibration_witness :
  (2 <= imu_updates [imu_tick; imu_tick; rc_tick (sticks_arm 0 1 2 3)])%Z.
Proof.
  apply (armed_only_after_calibration 0 1 2 3 7 2 2 power_on
           [imu_tick; imu_tick; rc_tick (sticks_arm 0 1 2 3)]).
  vm_compute. reflexivity.
Defined.

Lemma extras_tasks_round_robin_witness :
  tasks_performed
    (trace 0 1 2 3 standing_by
       [idle_tick 3; idle_tick 3; idle_tick 3; idle_tick 3])
  = [0; 1; 2; 0]%Z.
Proof.
  pose proof (extras_tasks_round_robin 0 1 2 3 3
                [idle_tick 3; idle_tick 3; idle_tick 3; idle_tick 3]
                standing_by ltac:(lia) ltac:(cbn; lia)) as W.
  rewrite (proj1 (W ltac:(repeat constructor))). reflexivity.
Defined.

End FirmwareInstances.
